(** * coffea.nanoevents.methods.candidate: a Lorentz vector with charge

    A shallow embedding of [candidate.py]: the [Candidate] mixin with its
    [add] and [sum] methods, the registration of the mixin in the tables of
    the [vector] module, and the class attributes assigned at the end of the
    module.

    The array framework ([awkward]) is a collaborator of the module, not part
    of it.  Its primitives are modelled on a fragment of its data: columns of
    integers that are scalars (the fields of a single record), flat arrays, or
    jagged arrays of depth two (events holding particles).  The entries
    are 64-bit integers, the type the framework gives to the integers of
    Python, and their arithmetic wraps around; columns of floating point
    numbers are not modelled. *)

From stdpp Require Import gmap strings list fin_maps.
From Stdlib Require Import ZArith Lia.

Local Open Scope string_scope.
Local Open Scope list_scope.
Local Open Scope Z_scope.

(** ** Exceptions and results *)

(** The exceptions the framework primitives and the interpreter raise. *)
Inductive exn : Type :=
| AttributeError (attr : string)
| ValueError (what : string)
| TypeError (what : string).

Inductive result (A : Type) : Type :=
| Ok (a : A)
| Raise (e : exn).
Arguments Ok {A} a.
Arguments Raise {A} e.

Definition rbind {A B} (r : result A) (k : A → result B) : result B :=
  match r with
  | Ok a => k a
  | Raise e => Raise e
  end.

Notation "x ←r c ; k" := (rbind c (fun x => k))
  (at level 100, c at next level, right associativity, only parsing).

Definition raises {A} (r : result A) : Prop := ∃ e, r = Raise e.

(** ** Columns: the framework's arrays of numbers *)

(** The value of a 64-bit signed integer: the representative of [z]
    between [-2^63] and [2^63 - 1]. *)
Definition wrap64 (z : Z) : Z := (z + 2 ^ 63) mod 2 ^ 64 - 2 ^ 63.

(** The addition of two entries. *)
Definition add64 (x y : Z) : Z := wrap64 (x + y).

Inductive column : Type :=
| Scalar (z : Z)
| Flat (l : list Z)
| Jagged (ll : list (list Z)).

Inductive shape : Type :=
| SScalar
| SFlat (n : nat)
| SJagged (counts : list nat).

Global Instance shape_eq_dec : EqDecision shape.
Proof. solve_decision. Defined.

Global Instance column_eq_dec : EqDecision column.
Proof. solve_decision. Defined.

Definition shape_of (c : column) : shape :=
  match c with
  | Scalar _ => SScalar
  | Flat l => SFlat (length l)
  | Jagged ll => SJagged (length <$> ll)
  end.

Definition depth (c : column) : Z :=
  match c with
  | Scalar _ => 0
  | Flat _ => 1
  | Jagged _ => 2
  end.

(** The value of a column at event [i], particle [j].  A scalar has the same
    value everywhere and a flat array the same value for every [j]: this is
    how the framework broadcasts them. *)
Definition at_ (c : column) (i j : nat) : option Z :=
  match c with
  | Scalar z => Some z
  | Flat l => l !! i
  | Jagged ll => row ← ll !! i; row !! j
  end.

(** The common shape of two columns.  Scalars broadcast to anything and a
    flat array to a jagged array with as many rows; jagged arrays need the
    same number of entries in every row. *)
Definition join (s1 s2 : shape) : result shape :=
  match s1, s2 with
  | SScalar, s | s, SScalar => Ok s
  | SFlat n, SFlat m =>
      if decide (n = m) then Ok (SFlat n)
      else Raise (ValueError "cannot broadcast arrays of different lengths")
  | SFlat n, SJagged cs | SJagged cs, SFlat n =>
      if decide (n = length cs) then Ok (SJagged cs)
      else Raise (ValueError "cannot broadcast arrays of different lengths")
  | SJagged c1, SJagged c2 =>
      if decide (c1 = c2) then Ok (SJagged c1)
      else Raise (ValueError "cannot broadcast nested list")
  end.

Definition broadcast_to (s : shape) (c : column) : column :=
  match c, s with
  | Scalar z, SScalar => Scalar z
  | Scalar z, SFlat n => Flat (replicate n z)
  | Scalar z, SJagged cs => Jagged ((λ k, replicate k z) <$> cs)
  | Flat l, SJagged cs => Jagged (zip_with (λ z k, replicate k z) l cs)
  | Flat l, _ => Flat l
  | Jagged ll, _ => Jagged ll
  end.

(** A binary operation on two columns of the same shape. *)
Definition pointwise (op : Z → Z → Z) (a b : column) : column :=
  match a, b with
  | Scalar x, Scalar y => Scalar (op x y)
  | Flat l1, Flat l2 => Flat (zip_with op l1 l2)
  | Jagged l1, Jagged l2 => Jagged (zip_with (zip_with op) l1 l2)
  | _, _ => a
  end.

(** [a + b] on columns: broadcast, then add entry by entry. *)
Definition ak_add (a b : column) : result column :=
  s ←r join (shape_of a) (shape_of b);
  Ok (pointwise add64 (broadcast_to s a) (broadcast_to s b)).

Definition zsum (l : list Z) : Z := foldr add64 0 l.

(** Entry by entry sum of two rows, the shorter one taken as padded. *)
Fixpoint pad_add (r1 r2 : list Z) : list Z :=
  match r1, r2 with
  | [], r | r, [] => r
  | a :: r1', b :: r2' => add64 a b :: pad_add r1' r2'
  end.

(** [awkward.sum(c, axis=axis)]: a negative axis counts from the innermost
    dimension.  A number has no axis to reduce; an axis beyond the depth of
    an array is refused. *)
Definition ak_sum (c : column) (axis : Z) : result column :=
  let ax := if axis <? 0 then axis + depth c else axis in
  match c, ax with
  | Flat l, 0 => Ok (Scalar (zsum l))
  | Jagged ll, 1 => Ok (Flat (zsum <$> ll))
  | Jagged ll, 0 => Ok (Flat (foldr pad_add [] ll))
  | Scalar _, _ => Raise (TypeError "no axis to reduce in a number")
  | _, _ => Raise (ValueError "axis exceeds the depth of the array")
  end.

(** ** Record arrays *)

(** A reference to a behavior registry (the dict object). *)
Definition behavior_ref := nat.

(** A record array: the columns it exposes by attribute, the name it is
    tagged with, and the behavior registry it carries.  For a record in
    [pt], [eta], [phi] coordinates the attributes [x], [y], [z], [t] are
    properties computed by the [vector] module; here they are columns the
    array exposes like the others. *)
Record Array : Type := mkArray {
  fields : list (string * column);
  with_name : string;
  behavior : behavior_ref
}.

Fixpoint assoc {V} (k : string) (l : list (string * V)) : option V :=
  match l with
  | [] => None
  | (k', v) :: l' => if decide (k = k') then Some v else assoc k l'
  end.

(** [a.name] for the attributes the methods read, x, y, z, t and charge, on
    an array: the column stored under that name.  The other attributes of
    a vector (a mass, a pt), which the mixins of the [vector] module
    compute, and the attributes of a single record, which those mixins
    serve too, are not modelled; the statements below that rely on a
    column being returned are about arrays. *)
Definition getattr (a : Array) (name : string) : result column :=
  match assoc name (fields a) with
  | Some c => Ok c
  | None => Raise (AttributeError name)
  end.

Fixpoint common_shape (cs : list column) : result shape :=
  match cs with
  | [] => Ok SScalar
  | c :: cs' => s ←r common_shape cs'; join (shape_of c) s
  end.

(** [awkward.zip(dict, with_name=..., behavior=...)]: the columns are
    broadcast to a common shape. *)
Definition ak_zip (d : list (string * column)) (name : string)
    (b : behavior_ref) : result Array :=
  s ←r common_shape (d.*2);
  Ok (mkArray (prod_map id (broadcast_to s) <$> d) name b).

(** ** The Candidate mixin *)

Module Candidate.

(** [Candidate.add(self, other)] *)
Definition add (self other : Array) : result Array :=
  x ←r (a ←r getattr self "x"; b ←r getattr other "x"; ak_add a b);
  y ←r (a ←r getattr self "y"; b ←r getattr other "y"; ak_add a b);
  z ←r (a ←r getattr self "z"; b ←r getattr other "z"; ak_add a b);
  t ←r (a ←r getattr self "t"; b ←r getattr other "t"; ak_add a b);
  charge ←r (a ←r getattr self "charge"; b ←r getattr other "charge";
             ak_add a b);
  ak_zip [("x", x); ("y", y); ("z", z); ("t", t); ("charge", charge)]
         "Candidate" (behavior self).

(** [Candidate.sum(self, axis)] *)
Definition sum (self : Array) (axis : Z) : result Array :=
  x ←r (c ←r getattr self "x"; ak_sum c axis);
  y ←r (c ←r getattr self "y"; ak_sum c axis);
  z ←r (c ←r getattr self "z"; ak_sum c axis);
  t ←r (c ←r getattr self "t"; ak_sum c axis);
  charge ←r (c ←r getattr self "charge"; ak_sum c axis);
  ak_zip [("x", x); ("y", y); ("z", z); ("t", t); ("charge", charge)]
         "Candidate" (behavior self).

(** [self.sum()]: the default axis. *)
Definition sum_default (self : Array) : result Array := sum self (-1).

End Candidate.

(** The five attributes both methods read and write. *)
Definition candidate_fields : list string := ["x"; "y"; "z"; "t"; "charge"].

(** ** Classes, their namespaces and attribute lookup *)

(** The classes the module sees: those of the [vector] module and of the
    array framework, by their name there, the three mixins the module
    defines, and the array and record classes [awkward.mixin_class] makes
    from each mixin.  A class statement makes a new class object every time
    it is executed: [Again c] is the class that the statement which made [c]
    makes when the module is executed once more. *)
Inductive pyclass : Type :=
| Vector (name : string)
| Awkward (name : string)
| Candidate
| PtEtaPhiMCandidate
| PtEtaPhiECandidate
| CandidateArray
| PtEtaPhiMCandidateArray
| PtEtaPhiECandidateArray
| CandidateRecord
| PtEtaPhiMCandidateRecord
| PtEtaPhiECandidateRecord
| Again (c : pyclass).

Global Instance pyclass_eq_dec : EqDecision pyclass.
Proof. solve_decision. Defined.

(** What a class attribute holds: a function, known by the class whose body
    defines it and its name, or a class. *)
Inductive pyval : Type :=
| Function (owner : pyclass) (name : string)
| Class (c : pyclass).

Global Instance pyval_eq_dec : EqDecision pyval.
Proof. solve_decision. Defined.

(** The classes that are not defined in this module: their namespaces,
    their linearisations (the class itself first), and what follows
    [Candidate] in the linearisation of a mixin with a second base. *)
Record external : Type := {
  ext_dict : pyclass → gmap string pyval;
  ext_mro : pyclass → list pyclass;
  ext_merge : pyclass → list pyclass
}.

Definition namespaces := pyclass → gmap string pyval.

(** The namespace a class statement of the module gives its class: the body
    of [Candidate] defines [add] and [sum], the two coordinate variants are
    empty, and so are the array and record classes made by the decorator.
    [w] names the class objects of the execution at hand: the functions of
    the body belong to the class that this execution makes. *)
Fixpoint class_body (ext : external) (w : pyclass → pyclass) (c : pyclass)
    : gmap string pyval :=
  match c with
  | Again c' => class_body ext (λ k, w (Again k)) c'
  | Vector _ | Awkward _ => ext_dict ext c
  | Candidate =>
      <["add" := Function (w Candidate) "add"]>
        (<["sum" := Function (w Candidate) "sum"]> ∅)
  | _ => ∅
  end.

(** The namespaces once the class statements have run. *)
Definition class_statements (ext : external) : namespaces :=
  λ c, class_body ext id c.

(** [class Candidate(vector.LorentzVector)],
    [class PtEtaPhiMCandidate(Candidate, vector.PtEtaPhiMCandidate)],
    [class PtEtaPhiECandidate(Candidate, vector.PtEtaPhiELorentzVector)];
    the array class of a mixin has the mixin and the framework's array class
    as bases, the record class the mixin and the framework's record class.
    The classes of the module in a linearisation are those of the same
    execution, named by [w]; the classes of the vector module and of the
    framework are made once. *)
Fixpoint linearization (ext : external) (w : pyclass → pyclass)
    (c : pyclass) : list pyclass :=
  let candidate := w Candidate :: ext_mro ext (Vector "LorentzVector") in
  let ptetaphim :=
    w PtEtaPhiMCandidate :: w Candidate
      :: ext_merge ext PtEtaPhiMCandidate in
  let ptetaphie :=
    w PtEtaPhiECandidate :: w Candidate
      :: ext_merge ext PtEtaPhiECandidate in
  match c with
  | Again c' => linearization ext (λ k, w (Again k)) c'
  | Vector _ | Awkward _ => ext_mro ext c
  | Candidate => candidate
  | PtEtaPhiMCandidate => ptetaphim
  | PtEtaPhiECandidate => ptetaphie
  | CandidateArray =>
      w CandidateArray :: candidate ++ ext_mro ext (Awkward "Array")
  | PtEtaPhiMCandidateArray =>
      w PtEtaPhiMCandidateArray :: ptetaphim
        ++ ext_mro ext (Awkward "Array")
  | PtEtaPhiECandidateArray =>
      w PtEtaPhiECandidateArray :: ptetaphie
        ++ ext_mro ext (Awkward "Array")
  | CandidateRecord =>
      w CandidateRecord :: candidate ++ ext_mro ext (Awkward "Record")
  | PtEtaPhiMCandidateRecord =>
      w PtEtaPhiMCandidateRecord :: ptetaphim
        ++ ext_mro ext (Awkward "Record")
  | PtEtaPhiECandidateRecord =>
      w PtEtaPhiECandidateRecord :: ptetaphie
        ++ ext_mro ext (Awkward "Record")
  end.

Definition mro (ext : external) (c : pyclass) : list pyclass :=
  linearization ext id c.

Fixpoint lookup_along (ns : namespaces) (name : string) (l : list pyclass)
    : option pyval :=
  match l with
  | [] => None
  | k :: l' =>
      match ns k !! name with
      | Some v => Some v
      | None => lookup_along ns name l'
      end
  end.

(** [c.name] on a class: the first namespace of the linearisation that has
    the name. *)
Definition class_getattr (ext : external) (ns : namespaces) (c : pyclass)
    (name : string) : result pyval :=
  match lookup_along ns name (mro ext c) with
  | Some v => Ok v
  | None => Raise (AttributeError name)
  end.

(** [c.name = v] *)
Definition class_setattr (c : pyclass) (name : string) (v : pyval)
    (ns : namespaces) : namespaces :=
  λ k, if decide (k = c) then <[name := v]> (ns k) else ns k.

(** ** The tables of the vector module *)

Inductive ufunc : Type := numpy_add | numpy_subtract.

Global Instance ufunc_eq_dec : EqDecision ufunc.
Proof. solve_decision. Defined.

Global Instance ufunc_countable : Countable ufunc.
Proof.
  refine (inj_countable' (λ u, match u with numpy_add => true
                                          | numpy_subtract => false end)
                         (λ b : bool, if b then numpy_add else numpy_subtract)
                         _).
  by intros [].
Defined.

Module vector.

(** The three registries: a dict from tag to class (in insertion order),
    the precedence list, and the entries of the behavior dict keyed by an
    operator and two tags. *)
Record tables : Type := mkTables {
  _binary_dispatch_cls : list (string * pyclass);
  _rank : list pyclass;
  behavior : gmap (ufunc * string * string) pyval
}.

End vector.

(** What is left when a statement has run: the state, and the exception if
    one was raised on the way. *)
Inductive outcome (S : Type) : Type :=
| Done (s : S)
| Raised (e : exn) (s : S).
Arguments Done {S} s.
Arguments Raised {S} e s.

Definition state_of {S} (o : outcome S) : S :=
  match o with
  | Done s | Raised _ s => s
  end.

(** [for x in l: body] *)
Fixpoint for_each {A S} (body : A → S → outcome S) (l : list A) (s : S)
    : outcome S :=
  match l with
  | [] => Done s
  | x :: l' =>
      match body x s with
      | Done s' => for_each body l' s'
      | Raised e s' => Raised e s'
      end
  end.

(** [d.update({k: v})]: a key already there keeps its place. *)
Fixpoint dict_update {V} (k : string) (v : V) (d : list (string * V))
    : list (string * V) :=
  match d with
  | [] => [(k, v)]
  | (k', v') :: d' =>
      if decide (k' = k) then (k, v) :: d' else (k', v') :: dict_update k v d'
  end.

(** [l.index(c)] *)
Fixpoint list_index (c : pyclass) (l : list pyclass) : option nat :=
  match l with
  | [] => None
  | c' :: l' => if decide (c' = c) then Some 0%nat else S <$> list_index c l'
  end.

Definition rank_index (rank : list pyclass) (c : pyclass) : result nat :=
  match list_index c rank with
  | Some i => Ok i
  | None => Raise (ValueError "is not in list")
  end.

(** [min(a, b, key=rank.index)]: the first of the smallest. *)
Definition min_by_rank (rank : list pyclass) (a b : pyclass)
    : result pyclass :=
  ia ←r rank_index rank a;
  ib ←r rank_index rank b;
  Ok (if (ib <? ia)%nat then b else a).

Abbreviation behaviors := (gmap (ufunc * string * string) pyval).

(** The body of the inner loop. *)
Definition register_pair (ext : external) (ns : namespaces)
    (rank : list pyclass) (l r : string * pyclass) (bh : behaviors)
    : outcome behaviors :=
  let '(lhs, lhs_to) := l in
  let '(rhs, rhs_to) := r in
  if decide (lhs = "Candidate" ∨ rhs = "Candidate") then
    match min_by_rank rank lhs_to rhs_to with
    | Raise e => Raised e bh
    | Ok out_to =>
        match class_getattr ext ns out_to "add" with
        | Raise e => Raised e bh
        | Ok f =>
            let bh1 := <[(numpy_add, lhs, rhs) := f]> bh in
            match class_getattr ext ns out_to "subtract" with
            | Raise e => Raised e bh1
            | Ok g => Done (<[(numpy_subtract, lhs, rhs) := g]> bh1)
            end
        end
    end
  else Done bh.

(** The registration step of the module, lines 71 to 83: the update of the
    dispatch dict, the extension of the precedence list, and the two loops.
    [candidate] is the class object the name [Candidate] is bound to when
    the step runs, the one the class statement above it has just made. *)
Definition register_as (candidate : pyclass) (ext : external)
    (v : vector.tables) : outcome vector.tables :=
  let ns := class_statements ext in
  let d := dict_update "Candidate" candidate (vector._binary_dispatch_cls v) in
  let rank := vector._rank v ++ [candidate] in
  let loops :=
    for_each (λ l, for_each (λ r, register_pair ext ns rank l r) d) d
             (vector.behavior v) in
  match loops with
  | Done bh => Done (vector.mkTables d rank bh)
  | Raised e bh => Raised e (vector.mkTables d rank bh)
  end.

(** The registration step when the module is loaded. *)
Definition register (ext : external) (v : vector.tables)
    : outcome vector.tables :=
  register_as Candidate ext v.

(** The registration step when the module is imported again: the class
    statement has made a new class, and the step registers that one. *)
Definition reimport (ext : external) (v : vector.tables)
    : outcome vector.tables :=
  register_as (Again Candidate) ext v.

(** The assignments that end the module. *)
Definition assign_classes (ns : namespaces) : namespaces :=
  let ns := class_setattr CandidateArray "ProjectionClass2D"
              (Class (Vector "TwoVectorArray")) ns in
  let ns := class_setattr CandidateArray "ProjectionClass3D"
              (Class (Vector "ThreeVectorArray")) ns in
  let ns := class_setattr CandidateArray "ProjectionClass4D"
              (Class (Vector "LorentzVectorArray")) ns in
  let ns := class_setattr CandidateArray "MomentumClass"
              (Class CandidateArray) ns in
  let ns := class_setattr PtEtaPhiMCandidateArray "ProjectionClass2D"
              (Class (Vector "TwoVectorArray")) ns in
  let ns := class_setattr PtEtaPhiMCandidateArray "ProjectionClass3D"
              (Class (Vector "ThreeVectorArray")) ns in
  let ns := class_setattr PtEtaPhiMCandidateArray "ProjectionClass4D"
              (Class (Vector "LorentzVectorArray")) ns in
  let ns := class_setattr PtEtaPhiMCandidateArray "MomentumClass"
              (Class PtEtaPhiMCandidateArray) ns in
  let ns := class_setattr PtEtaPhiECandidateArray "ProjectionClass2D"
              (Class (Vector "TwoVectorArray")) ns in
  let ns := class_setattr PtEtaPhiECandidateArray "ProjectionClass3D"
              (Class (Vector "ThreeVectorArray")) ns in
  let ns := class_setattr PtEtaPhiECandidateArray "ProjectionClass4D"
              (Class (Vector "LorentzVectorArray")) ns in
  class_setattr PtEtaPhiECandidate "MomentumClass"
    (Class PtEtaPhiECandidateArray) ns.

(** The namespaces when the module is loaded. *)
Definition loaded_classes (ext : external) : namespaces :=
  assign_classes (class_statements ext).

(** ** Auxiliary definitions used by the statements *)


(** A position of a shape. *)
Definition defined (s : shape) (i j : nat) : Prop :=
  match s with
  | SScalar => True
  | SFlat n => (i < n)%nat
  | SJagged cs => ∃ k, cs !! i = Some k ∧ (j < k)%nat
  end.

(** The value of attribute [f] of an array at a position. *)
Definition field_at (a : Array) (f : string) (i j : nat) : option Z :=
  match getattr a f with
  | Ok c => at_ c i j
  | Raise _ => None
  end.

Fixpoint rmapM {A B} (f : A → result B) (l : list A) : result (list B) :=
  match l with
  | [] => Ok []
  | x :: l' => y ←r f x; ys ←r rmapM f l'; Ok (y :: ys)
  end.

(** The shape both methods have: one column per field, then the zip. *)
Definition zip_fields (f : string → result column) (b : behavior_ref)
    : result Array :=
  cols ←r rmapM f candidate_fields;
  ak_zip (zip candidate_fields cols) "Candidate" b.

Definition add_field (A B : Array) (f : string) : result column :=
  a ←r getattr A f; b ←r getattr B f; ak_add a b.

Definition sum_field (A : Array) (axis : Z) (f : string) : result column :=
  c ←r getattr A f; ak_sum c axis.

(** The value at a position of the reduction of attribute [f]. *)
Definition reduced_at (A : Array) (axis : Z) (f : string) (i j : nat)
    : option Z :=
  match sum_field A axis f with
  | Ok r => at_ r i j
  | Raise _ => None
  end.

(** A field access or an addition made by [add] raises [e]. *)
Inductive add_call_raises (A B : Array) (e : exn) : Prop :=
| add_self_attr f :
    f ∈ candidate_fields → getattr A f = Raise e → add_call_raises A B e
| add_other_attr f :
    f ∈ candidate_fields → getattr B f = Raise e → add_call_raises A B e
| add_broadcast f a b :
    f ∈ candidate_fields → getattr A f = Ok a → getattr B f = Ok b →
    ak_add a b = Raise e → add_call_raises A B e.

(** The five sums are there and the zip made by [add] raises [e]. *)
Definition add_zip_raises (A B : Array) (e : exn) : Prop :=
  ∃ cols, rmapM (add_field A B) candidate_fields = Ok cols ∧
    ak_zip (zip candidate_fields cols) "Candidate" (behavior A) = Raise e.

(** A field access or a reduction made by [sum] raises [e]. *)
Inductive sum_call_raises (A : Array) (axis : Z) (e : exn) : Prop :=
| sum_self_attr f :
    f ∈ candidate_fields → getattr A f = Raise e → sum_call_raises A axis e
| sum_reduce f c :
    f ∈ candidate_fields → getattr A f = Ok c → ak_sum c axis = Raise e →
    sum_call_raises A axis e.

Definition sum_zip_raises (A : Array) (axis : Z) (e : exn) : Prop :=
  ∃ cols, rmapM (sum_field A axis) candidate_fields = Ok cols ∧
    ak_zip (zip candidate_fields cols) "Candidate" (behavior A) = Raise e.

(** ** Example arrays *)

(** Two candidates of opposite charge, and their sum. *)
Definition exA : Array :=
  mkArray [("x", Flat [1]); ("y", Flat [0]); ("z", Flat [0]); ("t", Flat [1]);
           ("charge", Flat [1])] "Candidate" 7%nat.

Definition exB : Array :=
  mkArray [("x", Flat [0]); ("y", Flat [1]); ("z", Flat [0]); ("t", Flat [1]);
           ("charge", Flat [-1])] "Candidate" 7%nat.

(** An array of three candidates. *)
Definition three : Array :=
  mkArray [("x", Flat [1; 2; 3]); ("y", Flat [0; 1; 0]); ("z", Flat [0; 0; 5]);
           ("t", Flat [1; 3; 6]); ("charge", Flat [1; -1; 1])]
          "Candidate" 7%nat.

(** An array in [pt], [eta], [phi], [mass] coordinates, at rest: it exposes
    [x], [y], [z], [t] too. *)
Definition exM : Array :=
  mkArray [("pt", Flat [0]); ("eta", Flat [0]); ("phi", Flat [0]);
           ("mass", Flat [5]); ("charge", Flat [1]);
           ("x", Flat [0]); ("y", Flat [0]); ("z", Flat [0]); ("t", Flat [5])]
          "PtEtaPhiMCandidate" 7%nat.

(** What the methods return on the arrays above. *)
Definition exAB : Array :=
  mkArray [("x", Flat [1]); ("y", Flat [1]); ("z", Flat [0]); ("t", Flat [2]);
           ("charge", Flat [0])] "Candidate" 7%nat.

Definition exSum : Array :=
  mkArray [("x", Scalar 6); ("y", Scalar 1); ("z", Scalar 5);
           ("t", Scalar 10); ("charge", Scalar 1)] "Candidate" 7%nat.

Definition exMM : Array :=
  mkArray [("x", Flat [0]); ("y", Flat [0]); ("z", Flat [0]); ("t", Flat [10]);
           ("charge", Flat [2])] "Candidate" 7%nat.

(** A record array whose fields are lists of different lengths. *)
Definition exJ : Array :=
  mkArray [("x", Jagged [[1; 2]]); ("y", Jagged [[1; 2; 3]]);
           ("z", Jagged [[1; 2; 3]]); ("t", Jagged [[1; 2; 3]]);
           ("charge", Jagged [[1; 2; 3]])] "Candidate" 7%nat.

(** What the loops leave for the pair of dispatch entries [l], [r]: the
    class of the two that comes first in the precedence list, and the [add]
    and [subtract] attributes of that class under the tags of the pair. *)
Definition registered (ext : external) (rank : list pyclass)
    (l r : string * pyclass) (bh : behaviors) : Prop :=
  ∃ out_to f g,
    min_by_rank rank l.2 r.2 = Ok out_to ∧
    class_getattr ext (class_statements ext) out_to "add" = Ok f ∧
    class_getattr ext (class_statements ext) out_to "subtract" = Ok g ∧
    bh !! (numpy_add, l.1, r.1) = Some f ∧
    bh !! (numpy_subtract, l.1, r.1) = Some g.

(** An example of the classes of the vector module: three classes, each
    with an [add] and a [subtract] of its own. *)
Definition example_ext : external := {|
  ext_dict := λ c,
    if decide (c ∈ [Vector "TwoVector"; Vector "ThreeVector";
                    Vector "LorentzVector"])
    then <["add" := Function c "add"]>
           (<["subtract" := Function c "subtract"]> ∅)
    else ∅;
  ext_mro := λ c,
    if decide (c = Vector "LorentzVector")
    then [c; Vector "ThreeVector"; Vector "TwoVector"]
    else if decide (c = Vector "ThreeVector") then [c; Vector "TwoVector"]
    else [c];
  ext_merge := λ _, []
|}.

(** An example of the tables of the vector module before the registration. *)
Definition example_tables : vector.tables :=
  vector.mkTables
    [("TwoVector", Vector "TwoVector");
     ("PolarTwoVector", Vector "TwoVector");
     ("ThreeVector", Vector "ThreeVector");
     ("LorentzVector", Vector "LorentzVector");
     ("PtEtaPhiMLorentzVector", Vector "LorentzVector")]
    [Vector "TwoVector"; Vector "ThreeVector"; Vector "LorentzVector"]
    (<[(numpy_add, "TwoVector", "ThreeVector") :=
         Function (Vector "TwoVector") "add"]> ∅).

(** Whether a statement ran to its end. *)
Definition is_done {S} (o : outcome S) : bool :=
  match o with
  | Done _ => true
  | Raised _ _ => false
  end.

(** The example tables after the registration. *)
Definition example_loaded : vector.tables :=
  state_of (register example_ext example_tables).

(** ** Further auxiliary definitions *)

(** A class that is not defined in this module. *)
Definition is_external (c : pyclass) : Prop :=
  match c with
  | Vector _ | Awkward _ => True
  | _ => False
  end.

(** The classes of the vector module and of the framework exist before the
    module is loaded: their linearisations hold none of its classes. *)
Definition external_only (ext : external) : Prop :=
  ∀ c k,
    is_external c ∧ k ∈ ext_mro ext c ∨ k ∈ ext_merge ext c →
    is_external k.

(** The names the module assigns on classes at its end. *)
Definition assigned_names : list string :=
  ["ProjectionClass2D"; "ProjectionClass3D"; "ProjectionClass4D";
   "MomentumClass"].

(** The classes the module makes. *)
Definition module_classes : list pyclass :=
  [Candidate; PtEtaPhiMCandidate; PtEtaPhiECandidate;
   CandidateArray; PtEtaPhiMCandidateArray; PtEtaPhiECandidateArray;
   CandidateRecord; PtEtaPhiMCandidateRecord; PtEtaPhiECandidateRecord].

(** [exM] without its tag and without the fields the methods do not read. *)
Definition exMplain : Array :=
  mkArray [("x", Flat [0]); ("y", Flat [0]); ("z", Flat [0]); ("t", Flat [5]);
           ("charge", Flat [1])] "Candidate" 7%nat.

(** Two events, of two particles and of one, and the sum of each event. *)
Definition exEvents : Array :=
  mkArray [("x", Jagged [[1; 2]; [3]]); ("y", Jagged [[0; 1]; [0]]);
           ("z", Jagged [[0; 0]; [5]]); ("t", Jagged [[1; 3]; [6]]);
           ("charge", Jagged [[1; -1]; [1]])] "Candidate" 7%nat.

Definition exRows : Array :=
  mkArray [("x", Flat [3; 3]); ("y", Flat [1; 0]); ("z", Flat [0; 5]);
           ("t", Flat [4; 6]); ("charge", Flat [0; 1])] "Candidate" 7%nat.

(** An array without [z]. *)
Definition exNoZ : Array :=
  mkArray [("x", Flat [1]); ("y", Flat [0]); ("t", Flat [1]);
           ("charge", Flat [1])] "Candidate" 7%nat.

(** Tables with a tag whose class is not in the precedence list. *)
Definition example_unranked : vector.tables :=
  vector.mkTables
    [("TwoVector", Vector "TwoVector"); ("Muon", Vector "Muon")]
    [Vector "TwoVector"]
    ∅.

(** The exception a statement raised, if it raised one. *)
Definition raised_exn {S} (o : outcome S) : option exn :=
  match o with
  | Done _ => None
  | Raised e _ => Some e
  end.

(** ** Columns and broadcasting *)

Section columns.
Implicit Types (a b c : column) (s : shape) (l : list Z) (cs : list nat).

Lemma rbind_ok {A B} (r : result A) (k : A → result B) (y : B) :
  rbind r k = Ok y → ∃ x, r = Ok x ∧ k x = Ok y.
Proof. destruct r; simpl; [eauto | discriminate]. Qed.

Lemma rbind_raise {A B} (r : result A) (k : A → result B) (e : exn) :
  rbind r k = Raise e → r = Raise e ∨ ∃ x, r = Ok x ∧ k x = Raise e.
Proof. destruct r; simpl; intros H; [right; eauto | left; congruence]. Qed.

Lemma not_raises_ok {A} (r : result A) : ¬ raises r → ∃ x, r = Ok x.
Proof. destruct r as [x|e]; [eauto | intros []; by exists e]. Qed.

Lemma join_comm s1 s2 : join s1 s2 = join s2 s1.
Proof.
  destruct s1, s2; simpl; try done; repeat case_decide; congruence.
Qed.

Lemma join_defined s1 s2 s i j :
  join s1 s2 = Ok s → defined s i j ↔ defined s1 i j ∧ defined s2 i j.
Proof.
  destruct s1 as [|n|c1], s2 as [|m|c2]; simpl;
    try case_decide; intros [= <-]; simpl; subst; try tauto.
  - split; [intros (k & Hk & Hj); split; [|eauto] | tauto].
    by apply lookup_lt_Some in Hk.
  - split; [intros (k & Hk & Hj); split; [eauto|] | tauto].
    by apply lookup_lt_Some in Hk.
Qed.

Lemma at_defined c i j : is_Some (at_ c i j) ↔ defined (shape_of c) i j.
Proof.
  destruct c as [z|l|ll]; simpl.
  - split; eauto.
  - apply lookup_lt_is_Some.
  - rewrite list_lookup_fmap. destruct (ll !! i) as [row|]; simpl.
    + rewrite lookup_lt_is_Some. split.
      * intros H. exists (length row). eauto.
      * by intros (k & [= <-] & H).
    + split; [by intros [? [=]] | by intros (k & [=] & _)].
Qed.

Lemma shape_replicate_rows l cs :
  length l = length cs →
  length <$> zip_with (λ z k, replicate k z) l cs = cs.
Proof.
  revert cs. induction l as [|z l IH]; intros [|k cs]; simpl; try done.
  intros [= H]. by rewrite length_replicate, IH.
Qed.

(** Broadcasting to the joined shape gives that shape. *)
Lemma shape_broadcast c s' s :
  join (shape_of c) s' = Ok s → shape_of (broadcast_to s c) = s.
Proof.
  destruct c as [z|l|ll], s' as [|m|cs]; simpl;
    try case_decide; intros [= <-]; simpl; try done.
  - by rewrite length_replicate.
  - f_equal. rewrite <- list_fmap_compose.
    rewrite <- (list_fmap_id cs) at 2. apply list_fmap_ext.
    intros ? k _. simpl. by rewrite length_replicate.
  - f_equal. by apply shape_replicate_rows.
Qed.

Lemma lookup_replicate_rows l cs i j v :
  (zip_with (λ z k, replicate k z) l cs !! i ≫= (.!! j)) = Some v →
  l !! i = Some v.
Proof.
  rewrite lookup_zip_with.
  destruct (l !! i) as [z|]; simpl; [|done].
  destruct (cs !! i) as [k|]; simpl; [|done].
  intros H. apply lookup_replicate in H as [-> _]. done.
Qed.

(** Broadcasting keeps the values. *)
Lemma at_broadcast c s i j v :
  at_ (broadcast_to s c) i j = Some v → at_ c i j = Some v.
Proof.
  destruct c as [z|l|ll], s as [|m|cs]; simpl; try done.
  - intros H. apply lookup_replicate in H as [-> _]. done.
  - rewrite list_lookup_fmap. destruct (cs !! i) as [k|]; simpl; [|done].
    intros H. apply lookup_replicate in H as [-> _]. done.
  - apply lookup_replicate_rows.
Qed.


Lemma shape_pointwise op a b :
  shape_of a = shape_of b → shape_of (pointwise op a b) = shape_of a.
Proof.
  destruct a as [x|l1|l1], b as [y|l2|l2]; simpl; try done.
  - intros [= H]. rewrite length_zip_with. f_equal. lia.
  - intros [= H]. f_equal. revert l2 H.
    induction l1 as [|r1 l1 IH]; intros [|r2 l2]; csimpl; try done.
    intros [= H1 H2]. rewrite length_zip_with, (IH _ H2). f_equal. lia.
Qed.

Lemma add64_comm x y : add64 x y = add64 y x.
Proof. unfold add64. by rewrite Z.add_comm. Qed.

(** An entry is a 64-bit integer, and it is the sum when the sum is one. *)
Lemma wrap64_range z : - 2 ^ 63 ≤ wrap64 z < 2 ^ 63.
Proof.
  unfold wrap64. pose proof (Z.mod_pos_bound (z + 2 ^ 63) (2 ^ 64)). lia.
Qed.


(** Past the largest 64-bit integer the addition comes back from the
    smallest. *)
Example add64_wraps : add64 (2 ^ 63 - 1) 1 = - 2 ^ 63.
Proof. reflexivity. Qed.

Lemma pointwise_add_comm a b :
  shape_of a = shape_of b → pointwise add64 a b = pointwise add64 b a.
Proof.
  destruct a as [x|l1|l1], b as [y|l2|l2]; simpl; try done; intros _.
  - f_equal. apply add64_comm.
  - f_equal. revert l2. induction l1 as [|x l1 IH]; intros [|y l2];
      simpl; try done. rewrite IH. f_equal. apply add64_comm.
  - f_equal. revert l2. induction l1 as [|r1 l1 IH]; intros [|r2 l2];
      simpl; try done. rewrite IH. f_equal.
    revert r2. induction r1 as [|x r1 IHr]; intros [|y r2]; simpl;
      try done. rewrite IHr. f_equal. apply add64_comm.
Qed.



Lemma ak_add_comm a b : ak_add a b = ak_add b a.
Proof.
  unfold ak_add. rewrite (join_comm (shape_of b)).
  destruct (join (shape_of a) (shape_of b)) as [s|e] eqn:Hs; simpl; [|done].
  f_equal. apply pointwise_add_comm.
  rewrite (shape_broadcast _ _ _ Hs). rewrite join_comm in Hs.
  by rewrite (shape_broadcast _ _ _ Hs).
Qed.

Lemma common_shape_defined (cols : list column) s i j :
  common_shape cols = Ok s →
  defined s i j ↔ ∀ c, c ∈ cols → defined (shape_of c) i j.
Proof.
  revert s. induction cols as [|c cols IH]; simpl; intros s.
  - intros [= <-]. simpl. split; [|done]. by intros _ c ?%elem_of_nil.
  - intros (s' & Hs' & Hj)%rbind_ok.
    rewrite (join_defined _ _ _ _ _ Hj), (IH _ Hs'). split.
    + intros [Hc Hall] c' [->|?]%elem_of_cons; auto.
    + intros H. split; [apply H; left | intros c' ?; apply H; by right].
Qed.

Lemma join_absorb s1 s2 s : join s1 s2 = Ok s → join s1 s = Ok s.
Proof.
  destruct s1, s2; simpl; try case_decide; intros [= <-]; simpl;
    repeat case_decide; congruence.
Qed.

Lemma join_trans s1 s2 s3 :
  join s1 s2 = Ok s2 → join s2 s3 = Ok s3 → join s1 s3 = Ok s3.
Proof.
  destruct s1, s2, s3; simpl; repeat case_decide; try congruence;
    intros [= ?] [= ?]; subst; try congruence.
Qed.

Lemma common_shape_join (cols : list column) s c :
  common_shape cols = Ok s → c ∈ cols → join (shape_of c) s = Ok s.
Proof.
  revert s. induction cols as [|c' cols IH]; simpl; intros s.
  - by intros _ ?%elem_of_nil.
  - intros (s' & Hs' & Hj)%rbind_ok [->|Hc]%elem_of_cons.
    + eauto using join_absorb.
    + apply (join_trans _ s'); [by apply IH|].
      rewrite join_comm in Hj. eauto using join_absorb.
Qed.
Lemma join_same s : join s s = Ok s.
Proof. destruct s; simpl; try done; by rewrite decide_True. Qed.

Lemma ak_add_same_shape a b :
  shape_of a = shape_of b →
  ∃ c, ak_add a b = Ok c ∧ shape_of c = shape_of a.
Proof.
  intros Hab. pose proof (join_same (shape_of a)) as Hj.
  assert (shape_of (broadcast_to (shape_of a) a) = shape_of a) as Ha
    by apply (shape_broadcast _ _ _ Hj).
  assert (shape_of (broadcast_to (shape_of a) b) = shape_of a) as Hb.
  { eapply shape_broadcast. rewrite <- Hab. apply Hj. }
  unfold ak_add. rewrite <- Hab, Hj. simpl. eexists. split; [done|].
  rewrite shape_pointwise; congruence.
Qed.

Lemma length_pad_add (r1 r2 : list Z) :
  length (pad_add r1 r2) = (length r1 `max` length r2)%nat.
Proof.
  revert r2. induction r1 as [|x r1 IH]; intros [|y r2]; simpl; try done.
  by rewrite IH.
Qed.

Lemma length_pad_rows (ll : list (list Z)) :
  length (foldr pad_add [] ll) = foldr Nat.max 0%nat (length <$> ll).
Proof.
  induction ll as [|r ll IH]; csimpl; [done|].
  by rewrite length_pad_add, IH.
Qed.

(** The shape of a reduction is given by the shape of the column. *)
Lemma ak_sum_same_shape a b axis r :
  shape_of a = shape_of b → ak_sum a axis = Ok r →
  ∃ r', ak_sum b axis = Ok r' ∧ shape_of r' = shape_of r.
Proof.
  unfold ak_sum.
  destruct a as [x|l1|l1], b as [y|l2|l2]; simpl; try done; intros [= Hs].
  - destruct (if axis <? 0 then axis + 1 else axis) as [| |]; [|done..].
    intros [= <-]. eauto.
  - destruct (if axis <? 0 then axis + 2 else axis) as [|[| |]|]; try done;
      intros [= <-]; eexists; (split; [done|]); simpl.
    + by rewrite !length_pad_rows, Hs.
    + apply (f_equal length) in Hs. rewrite !length_fmap in *. by rewrite Hs.
Qed.

Lemma common_shape_same (cols : list column) s :
  (∀ c, c ∈ cols → shape_of c = s) → ∃ s', common_shape cols = Ok s'.
Proof.
  intros Hall.
  assert (common_shape cols = Ok s ∨ common_shape cols = Ok SScalar)
    as [->| ->]; [|eauto..].
  induction cols as [|c cols IH]; simpl; [by right|].
  rewrite (Hall c) by left.
  destruct IH as [->| ->]; simpl.
  - intros c' ?. apply Hall. by right.
  - left. apply join_same.
  - left. by destruct s.
Qed.
End columns.

(** ** The methods as a zip of five columns *)

Ltac solve_elem :=
  repeat first [apply list_elem_of_here | apply list_elem_of_further].

Section methods.
Implicit Types (A B R : Array) (f g : string) (e : exn).

Lemma add_zip_fields A B :
  Candidate.add A B = zip_fields (add_field A B) (behavior A).
Proof.
  unfold Candidate.add, zip_fields, candidate_fields, rmapM.
  fold (add_field A B "x"). fold (add_field A B "y").
  fold (add_field A B "z"). fold (add_field A B "t").
  fold (add_field A B "charge").
  destruct (add_field A B "x"); [|done].
  destruct (add_field A B "y"); [|done].
  destruct (add_field A B "z"); [|done].
  destruct (add_field A B "t"); [|done].
  by destruct (add_field A B "charge").
Qed.

Lemma sum_zip_fields A axis :
  Candidate.sum A axis = zip_fields (sum_field A axis) (behavior A).
Proof.
  unfold Candidate.sum, zip_fields, candidate_fields, rmapM.
  fold (sum_field A axis "x"). fold (sum_field A axis "y").
  fold (sum_field A axis "z"). fold (sum_field A axis "t").
  fold (sum_field A axis "charge").
  destruct (sum_field A axis "x"); [|done].
  destruct (sum_field A axis "y"); [|done].
  destruct (sum_field A axis "z"); [|done].
  destruct (sum_field A axis "t"); [|done].
  by destruct (sum_field A axis "charge").
Qed.

Lemma rmapM_ok {X Y} (h : X → result Y) (l : list X) (ys : list Y) :
  rmapM h l = Ok ys → Forall2 (λ x y, h x = Ok y) l ys.
Proof.
  revert ys. induction l as [|x l IH]; simpl; intros ys.
  - intros [= <-]. constructor.
  - intros (y & Hy & (ys' & Hys & [= <-])%rbind_ok)%rbind_ok.
    constructor; auto.
Qed.

Lemma rmapM_raise {X Y} (h : X → result Y) (l : list X) e :
  rmapM h l = Raise e → ∃ x, x ∈ l ∧ h x = Raise e.
Proof.
  induction l as [|x l IH]; simpl; [done|].
  intros [H | (y & Hy & [H | (ys & _ & [=])]%rbind_raise)]%rbind_raise.
  - exists x. split; [left | done].
  - destruct (IH H) as (x' & ? & ?). exists x'. split; [by right | done].
Qed.

Lemma rmapM_raises {X Y} (h : X → result Y) (l : list X) x :
  x ∈ l → raises (h x) → raises (rmapM h l).
Proof.
  induction l as [|x' l IH]; [by intros ?%elem_of_nil|].
  intros [->|Hx]%elem_of_cons Hr; simpl.
  - destruct Hr as [e ->]. by exists e.
  - destruct (h x') as [y|e]; simpl; [|by exists e].
    destruct (IH Hx Hr) as [e ->]. by exists e.
Qed.

Lemma rmapM_ext {X Y} (h k : X → result Y) (l : list X) ys :
  (∀ x y, x ∈ l → h x = Ok y → k x = Ok y) →
  rmapM h l = Ok ys → rmapM k l = Ok ys.
Proof.
  revert ys. induction l as [|x l IH]; simpl; intros ys Hhk; [done|].
  intros (y & Hy & (ys' & Hys & [= <-])%rbind_ok)%rbind_ok.
  rewrite (Hhk x y); [|left|done]. simpl.
  rewrite (IH ys'); [done| |done].
  intros x' y' ?. apply Hhk. by right.
Qed.

(** What a successful zip of the five columns holds. *)
Lemma zip_fields_ok (h : string → result column) (b : behavior_ref) R :
  zip_fields h b = Ok R →
  ∃ s, with_name R = "Candidate" ∧ behavior R = b ∧
    (fields R).*1 = candidate_fields ∧
    (∀ f, f ∈ candidate_fields →
       ∃ c, h f = Ok c ∧ getattr R f = Ok (broadcast_to s c) ∧
            join (shape_of c) s = Ok s) ∧
    (∀ i j, defined s i j ↔
       ∀ g, g ∈ candidate_fields →
         ∃ c, h g = Ok c ∧ defined (shape_of c) i j).
Proof.
  unfold zip_fields.
  intros (cols & Hcols & Hzip)%rbind_ok.
  apply rmapM_ok in Hcols. unfold candidate_fields in *.
  repeat match goal with
         | H : Forall2 _ (_ :: _) _ |- _ =>
             apply Forall2_cons_inv_l in H as (? & ? & ? & H & ->)
         | H : Forall2 _ [] _ |- _ => apply Forall2_nil_inv_l in H as ->
         end.
  unfold ak_zip in Hzip. apply rbind_ok in Hzip as (s & Hs & [= <-]).
  rewrite snd_zip in Hs by (simpl; lia).
  exists s. repeat split; try done.
  - intros f Hf.
    pose proof (λ c, common_shape_join _ s c Hs) as Hjoin.
    repeat (apply elem_of_cons in Hf as [->|Hf];
            [eexists; split; [eassumption|];
             split; [reflexivity | apply Hjoin; solve_elem]|]).
    by apply elem_of_nil in Hf.
  - intros Hd g Hg.
    pose proof (proj1 (common_shape_defined _ _ i j Hs) Hd) as Hall.
    repeat (apply elem_of_cons in Hg as [->|Hg];
            [eexists; split; [eassumption|]; apply Hall; solve_elem|]).
    by apply elem_of_nil in Hg.
  - intros Hall. apply (common_shape_defined _ _ i j Hs).
    assert (∀ f c, f ∈ ["x"; "y"; "z"; "t"; "charge"] → h f = Ok c →
                   defined (shape_of c) i j) as Hd.
    { intros f c Hf Hc. destruct (Hall f Hf) as (c' & Hc' & ?).
      by replace c with c' by congruence. }
    intros c Hc.
    repeat (apply elem_of_cons in Hc as [Heq|Hc];
            [subst c; eapply Hd; [|eassumption]; solve_elem|]).
    by apply elem_of_nil in Hc.
Qed.
Lemma rmapM_total {X Y} (h : X → result Y) (l : list X) :
  (∀ x, x ∈ l → ∃ y, h x = Ok y) → ∃ ys, rmapM h l = Ok ys.
Proof.
  induction l as [|x l IH]; simpl; intros Hall; [eauto|].
  destruct (Hall x) as [y ->]; [left|].
  destruct IH as [ys ->]; [intros x' ?; apply Hall; by right|].
  simpl. eauto.
Qed.

(** The zip returns when the five columns are there with one shape. *)
Lemma zip_fields_returns (h : string → result column) b s :
  (∀ f, f ∈ candidate_fields → ∃ c, h f = Ok c ∧ shape_of c = s) →
  ∃ R, zip_fields h b = Ok R.
Proof.
  intros Hall. unfold zip_fields.
  destruct (rmapM_total h candidate_fields) as [cols Hcols];
    [intros f Hf; destruct (Hall f Hf) as (c & ? & _); eauto|].
  rewrite Hcols. cbn [rbind]. unfold ak_zip.
  apply rmapM_ok in Hcols.
  rewrite snd_zip by (by rewrite (Forall2_length _ _ _ Hcols)).
  destruct (common_shape_same cols s) as [s' ->]; [|simpl; eauto].
  intros c Hc.
  apply list_elem_of_lookup in Hc as [i Hi].
  destruct (Forall2_lookup_r _ _ _ _ _ Hcols Hi) as (f & Hf & Hfc).
  apply list_elem_of_lookup_2 in Hf.
  destruct (Hall f Hf) as (c' & ? & ?). congruence.
Qed.
End methods.

(** ** Properties of [add] and [sum] *)

Section candidate.
Implicit Types (A B R : Array) (f g : string) (e : exn).


Lemma zip_field_at R s f c i j :
  getattr R f = Ok (broadcast_to s c) → join (shape_of c) s = Ok s →
  (∀ v, field_at R f i j = Some v → at_ c i j = Some v) ∧
  (is_Some (field_at R f i j) ↔ defined s i j).
Proof.
  unfold field_at. intros -> Hj. split.
  - intros v. apply at_broadcast.
  - by rewrite at_defined, (shape_broadcast _ _ _ Hj).
Qed.

Lemma add_returns A B s :
  (∀ f, f ∈ candidate_fields →
     ∃ a b, getattr A f = Ok a ∧ getattr B f = Ok b ∧
            shape_of a = s ∧ shape_of b = s) →
  ∃ R, Candidate.add A B = Ok R.
Proof.
  intros Hall. rewrite add_zip_fields. apply (zip_fields_returns _ _ s).
  intros f Hf. destruct (Hall f Hf) as (a & b & Ha & Hb & Hsa & Hsb).
  unfold add_field. rewrite Ha, Hb. simpl.
  destruct (ak_add_same_shape a b) as (c & ? & ?); [congruence|].
  exists c. split; [done | congruence].
Qed.







Lemma sum_field_at A axis f r i j :
  sum_field A axis f = Ok r →
  (∀ v, at_ r i j = Some v ↔ reduced_at A axis f i j = Some v) ∧
  (defined (shape_of r) i j ↔ is_Some (reduced_at A axis f i j)).
Proof.
  unfold reduced_at. intros ->. split; [done|]. by rewrite at_defined.
Qed.

Lemma ak_sum_depth c axis r : ak_sum c axis = Ok r → depth r = depth c - 1.
Proof.
  unfold ak_sum. destruct c; simpl; destruct (axis <? 0); simpl;
    repeat case_match; by intros [= <-].
Qed.

(** The reduction returns exactly on the valid axes: the non-negative ones
    below the depth and the negative ones down to minus the depth. *)
Lemma ak_sum_valid_axis c axis :
  (∃ r, ak_sum c axis = Ok r) ↔ - depth c ≤ axis < depth c.
Proof.
  unfold ak_sum. destruct (Z.ltb_spec axis 0); destruct c; simpl;
    repeat case_match; split; try lia; try (intros [? [=]]); eauto.
Qed.

Lemma sum_returns A axis s :
  (∀ f, f ∈ candidate_fields →
     ∃ c, getattr A f = Ok c ∧ shape_of c = s ∧
          - depth c ≤ axis < depth c) →
  ∃ R, Candidate.sum A axis = Ok R.
Proof.
  intros Hall. rewrite sum_zip_fields.
  destruct (Hall "x") as (cx & _ & Hsx & Hax); [solve_elem|].
  apply ak_sum_valid_axis in Hax as [rx Hrx].
  apply (zip_fields_returns _ _ (shape_of rx)).
  intros f Hf. destruct (Hall f Hf) as (c & Hc & Hs & _).
  unfold sum_field. rewrite Hc. simpl.
  apply (ak_sum_same_shape cx c axis rx); [congruence | done].
Qed.

(** C2. For a Candidate array whose five fields have one shape and for
    every valid axis, [sum(axis)] returns; whenever it returns, the array
    is tagged "Candidate" and has exactly the fields x, y, z, t, charge;
    each of the five fields of the input is reduced on its own by the
    framework's sum along [axis], the reduction is one dimension lower,
    and the entries of a field of the result are the entries of the
    reduction of that field; the default axis is -1. *)
Theorem sum_reduces_fields A axis :
  (∀ s,
     (∀ f, f ∈ candidate_fields →
        ∃ c, getattr A f = Ok c ∧ shape_of c = s ∧
             - depth c ≤ axis < depth c) →
     ∃ R, Candidate.sum A axis = Ok R) ∧
  (∀ R, Candidate.sum A axis = Ok R →
    with_name R = "Candidate" ∧
    (fields R).*1 = candidate_fields ∧
    (∀ f, f ∈ candidate_fields →
       ∃ c r, getattr A f = Ok c ∧ ak_sum c axis = Ok r ∧
              depth r = depth c - 1) ∧
    (∀ f i j v, f ∈ candidate_fields → field_at R f i j = Some v →
       reduced_at A axis f i j = Some v) ∧
    (∀ f i j, f ∈ candidate_fields →
       is_Some (field_at R f i j) ↔
       ∀ g, g ∈ candidate_fields → is_Some (reduced_at A axis g i j))) ∧
  Candidate.sum_default A = Candidate.sum A (-1).
Proof.
  split; [apply sum_returns|]. split; [|done]. intros R.
  rewrite sum_zip_fields.
  intros (s & Hname & _ & Hfields & Hget & Hdef)%zip_fields_ok.
  split; [done|]. split; [done|]. split; [|split].
  - intros f Hf. destruct (Hget f Hf) as (r & Hr & _).
    unfold sum_field in Hr. apply rbind_ok in Hr as (c & Hc & Hr).
    exists c, r. eauto using ak_sum_depth.
  - intros f i j v Hf Hv.
    destruct (Hget f Hf) as (c & Hc & HR & Hj).
    destruct (zip_field_at R s f c i j HR Hj) as [Hval _].
    by apply (sum_field_at A axis f c i j Hc), Hval.
  - intros f i j Hf.
    destruct (Hget f Hf) as (c & Hc & HR & Hj).
    destruct (zip_field_at R s f c i j HR Hj) as [_ ->].
    rewrite Hdef. split.
    + intros Hall g Hg. destruct (Hall g Hg) as (c' & Hc' & Hd').
      by apply (sum_field_at A axis g c' i j Hc').
    + intros Hall g Hg. destruct (Hget g Hg) as (c' & Hc' & _).
      exists c'. split; [done|].
      by apply (sum_field_at A axis g c' i j Hc'), Hall.
Qed.

Lemma sum_reduces_fields_witness :
  Candidate.sum three (-1) = Ok exSum ∧ with_name exSum = "Candidate".
Proof.
  split; [reflexivity|].
  apply (proj1 (proj2 (sum_reduces_fields three (-1))) exSum). reflexivity.
Defined.

(** C4, as amended. Whatever the tag of the input, the array returned by
    [add] or [sum] is tagged "Candidate", and it carries the behavior
    registry of [self]. *)
Theorem result_tag_and_behavior A B axis R :
  Candidate.add A B = Ok R ∨ Candidate.sum A axis = Ok R →
  with_name R = "Candidate" ∧ behavior R = behavior A.
Proof.
  rewrite add_zip_fields, sum_zip_fields.
  intros [H|H]; apply zip_fields_ok in H as (s & ? & ? & _); done.
Qed.

Lemma result_tag_and_behavior_witness :
  (Candidate.add exM exM = Ok exMM ∨ Candidate.sum exM 0 = Ok exMM) ∧
  with_name exMM = "Candidate" ∧ behavior exMM = behavior exM.
Proof.
  split; [left; reflexivity|].
  apply (result_tag_and_behavior exM exM 0 exMM). left. reflexivity.
Defined.

(** C4, as stated, fails: an array tagged "PtEtaPhiMCandidate" is accepted
    by [add] and the result is not tagged like it. *)
Lemma tag_not_preserved :
  ¬ (∀ A B R, Candidate.add A B = Ok R →
       with_name R = with_name A ∧ behavior R = behavior A).
Proof.
  intros H. by destruct (H exM exM exMM eq_refl) as [[=] _].
Qed.

(** C7. When [A.add(B)] returns, [B.add(A)] returns an array with the same
    fields and the same tag. *)
Theorem add_commutative A B R :
  Candidate.add A B = Ok R →
  ∃ R', Candidate.add B A = Ok R' ∧ fields R' = fields R ∧
        with_name R' = with_name R.
Proof.
  rewrite !add_zip_fields. unfold zip_fields.
  intros (cols & Hcols & Hzip)%rbind_ok.
  rewrite (rmapM_ext (add_field A B) (add_field B A) _ cols); [|..|done].
  - cbn [rbind]. unfold ak_zip in *.
    apply rbind_ok in Hzip as (s & Hs & [= <-]). rewrite Hs. cbn [rbind].
    eauto.
  - intros f c _. unfold add_field.
    intros (a & -> & (b & -> & Hadd)%rbind_ok)%rbind_ok. simpl.
    by rewrite ak_add_comm.
Qed.

Lemma add_commutative_witness :
  Candidate.add exA exB = Ok exAB ∧
  ∃ R', Candidate.add exB exA = Ok R' ∧ fields R' = fields exAB ∧
        with_name R' = with_name exAB.
Proof.
  split; [reflexivity|].
  apply (add_commutative exA exB exAB). reflexivity.
Defined.
Lemma zip_fields_raises (h : string → result column) b f :
  f ∈ candidate_fields → raises (h f) → raises (zip_fields h b).
Proof.
  intros Hf Hr. unfold zip_fields.
  destruct (rmapM_raises h candidate_fields f Hf Hr) as [e ->].
  by exists e.
Qed.

Lemma zip_fields_raise (h : string → result column) b e :
  zip_fields h b = Raise e →
  (∃ f, f ∈ candidate_fields ∧ h f = Raise e) ∨
  (∃ cols, rmapM h candidate_fields = Ok cols ∧
     ak_zip (zip candidate_fields cols) "Candidate" b = Raise e).
Proof.
  unfold zip_fields. intros [H | (cols & ? & ?)]%rbind_raise.
  - left. by apply rmapM_raise.
  - right. eauto.
Qed.

Lemma add_call_raises_add A B e :
  add_call_raises A B e → raises (Candidate.add A B).
Proof.
  rewrite add_zip_fields.
  intros [f Hf H | f Hf H | f a b Hf Ha Hb H];
    apply (zip_fields_raises _ _ f Hf); unfold add_field.
  - rewrite H. by exists e.
  - rewrite H. destruct (getattr A f) as [a|e']; [by exists e | by exists e'].
  - rewrite Ha, Hb. by exists e.
Qed.

Lemma sum_call_raises_sum A axis e :
  sum_call_raises A axis e → raises (Candidate.sum A axis).
Proof.
  rewrite sum_zip_fields.
  intros [f Hf H | f c Hf Hc H];
    apply (zip_fields_raises _ _ f Hf); unfold sum_field.
  - rewrite H. by exists e.
  - rewrite Hc. by exists e.
Qed.

(** C9, as amended. [add] and [sum] make no check of their own: they raise
    exactly when one of the framework primitives they call raises, a field
    access, an addition, a reduction or the final zip, and the exception
    they raise is the one raised by that primitive. *)
Theorem errors_come_from_primitives A B axis :
  (raises (Candidate.add A B) ↔
     ∃ e, add_call_raises A B e ∨ add_zip_raises A B e) ∧
  (∀ e, Candidate.add A B = Raise e →
     add_call_raises A B e ∨ add_zip_raises A B e) ∧
  (raises (Candidate.sum A axis) ↔
     ∃ e, sum_call_raises A axis e ∨ sum_zip_raises A axis e) ∧
  (∀ e, Candidate.sum A axis = Raise e →
     sum_call_raises A axis e ∨ sum_zip_raises A axis e).
Proof.
  assert (∀ e, Candidate.add A B = Raise e →
            add_call_raises A B e ∨ add_zip_raises A B e) as Hadd.
  { intros e. rewrite add_zip_fields.
    intros [(f & Hf & H) | H]%zip_fields_raise; [left | by right].
    unfold add_field in H.
    apply rbind_raise in H as [H | (a & Ha & H)];
      [by eapply add_self_attr|].
    apply rbind_raise in H as [H | (b & Hb & H)];
      [by eapply add_other_attr | by eapply add_broadcast]. }
  assert (∀ e, Candidate.sum A axis = Raise e →
            sum_call_raises A axis e ∨ sum_zip_raises A axis e) as Hsum.
  { intros e. rewrite sum_zip_fields.
    intros [(f & Hf & H) | H]%zip_fields_raise; [left | by right].
    unfold sum_field in H.
    apply rbind_raise in H as [H | (c & Hc & H)];
      [by eapply sum_self_attr | by eapply sum_reduce]. }
  split; [|split; [done|split; [|done]]].
  - split; [intros [e He]; eauto|].
    intros [e [H | (cols & Hcols & H)]]; [by eapply add_call_raises_add|].
    exists e. rewrite add_zip_fields. unfold zip_fields. by rewrite Hcols.
  - split; [intros [e He]; eauto|].
    intros [e [H | (cols & Hcols & H)]]; [by eapply sum_call_raises_sum|].
    exists e. rewrite sum_zip_fields. unfold zip_fields. by rewrite Hcols.
Qed.

Lemma errors_come_from_primitives_witness :
  Candidate.add exJ exJ =
    Raise (ValueError "cannot broadcast nested list") ∧
  (add_call_raises exJ exJ (ValueError "cannot broadcast nested list") ∨
   add_zip_raises exJ exJ (ValueError "cannot broadcast nested list")).
Proof.
  split; [reflexivity|].
  apply (proj1 (proj2 (errors_come_from_primitives exJ exJ 0))).
  reflexivity.
Defined.

(** C9, as stated, fails: [add] raises on a record array whose fields are
    lists of different lengths, although no field access and no addition
    raises; the exception is the one of the zip. *)
Lemma zip_raises_alone :
  ¬ (∀ A B, raises (Candidate.add A B) ↔ ∃ e, add_call_raises A B e).
Proof.
  intros H. destruct (proj1 (H exJ exJ)) as [e He].
  { by exists (ValueError "cannot broadcast nested list"). }
  clear H.
  destruct He as [f Hf H' | f Hf H' | f a b Hf Ha Hb H'];
    unfold candidate_fields in Hf; set_unfold in Hf;
    destruct_or!; subst f; try discriminate;
    vm_compute in Ha, Hb; injection Ha as <-; injection Hb as <-;
    vm_compute in H'; discriminate.
Qed.
End candidate.

(** ** Loops, dicts and the precedence list *)

Section loops.
Context {A S : Type}.
Implicit Types (body : A → S → outcome S) (l : list A) (s : S).

Lemma for_each_preserve (J : S → Prop) body l s :
  (∀ x s1, x ∈ l → J s1 → J (state_of (body x s1))) →
  J s → J (state_of (for_each body l s)).
Proof.
  revert s. induction l as [|x l IH]; simpl; intros s Hbody Hs; [done|].
  pose proof (Hbody x s (list_elem_of_here _ _) Hs) as Hx.
  destruct (body x s) as [s'|e s']; simpl in *; [|done].
  apply IH; [|done]. intros y s1 Hy. apply Hbody. by right.
Qed.

Lemma for_each_done_preserve (J : S → Prop) body l s s' :
  (∀ x s1 s2, x ∈ l → J s1 → body x s1 = Done s2 → J s2) →
  J s → for_each body l s = Done s' → J s'.
Proof.
  revert s. induction l as [|x l IH]; simpl; intros s Hbody Hs.
  { by intros [= <-]. }
  destruct (body x s) as [s1|e s1] eqn:Hx; [|done].
  apply IH.
  - intros y s2 s3 Hy. apply Hbody. by right.
  - eapply Hbody; [left | done | done].
Qed.

Lemma for_each_establish {K} (key : A → K) (I : A → S → Prop) body l s s' :
  NoDup (key <$> l) →
  (∀ x s1 s2, x ∈ l → body x s1 = Done s2 → I x s2) →
  (∀ x y s1 s2, x ∈ l → y ∈ l → key y ≠ key x →
     I x s1 → body y s1 = Done s2 → I x s2) →
  for_each body l s = Done s' → ∀ x, x ∈ l → I x s'.
Proof.
  revert s. induction l as [|y l IH]; simpl; intros s Hnd Hest Hpre Hrun x.
  { by intros ?%elem_of_nil. }
  apply NoDup_cons in Hnd as [Hy Hnd].
  destruct (body y s) as [s1|e s1] eqn:Hbody; [|done].
  intros [->|Hx]%elem_of_cons.
  - assert (I y s1) as Hs1 by (eapply Hest; [left | done]).
    eapply (for_each_done_preserve (I y)); [|done|done].
    intros z s2 s3 Hz HI Hz2.
    eapply (Hpre y z); [left | by right | | done | done].
    intros Heq. apply Hy. rewrite <- Heq. by apply list_elem_of_fmap_2.
  - eapply (IH s1); [done | | | done | done].
    + intros z s2 s3 Hz. apply Hest. by right.
    + intros z w s2 s3 Hz Hw. apply Hpre; by right.
Qed.
Lemma for_each_completes body l s :
  (∀ x s1, x ∈ l → is_done (body x s1) = true) →
  is_done (for_each body l s) = true.
Proof.
  revert s. induction l as [|x l IH]; simpl; intros s Hbody; [done|].
  pose proof (Hbody x s (list_elem_of_here _ _)) as Hx.
  destruct (body x s) as [s1|e s1]; [|done].
  apply IH. intros y s2 Hy. apply Hbody. by right.
Qed.
End loops.

Section tables.
Implicit Types (c : pyclass) (rank : list pyclass) (bh : behaviors).
Implicit Types (d : list (string * pyclass)).

Lemma dict_update_idemp {V} (k : string) (v : V) (d : list (string * V)) :
  dict_update k v (dict_update k v d) = dict_update k v d.
Proof.
  induction d as [|[k' v'] d IH]; simpl.
  - by rewrite decide_True.
  - destruct (decide (k' = k)); simpl.
    + by rewrite decide_True.
    + by rewrite decide_False, IH.
Qed.

Lemma dict_update_keys {V} (k : string) (v : V) (d : list (string * V)) :
  ∀ k', k' ∈ (dict_update k v d).*1 ↔ k' = k ∨ k' ∈ d.*1.
Proof.
  induction d as [|[k1 v1] d IH]; intros k'; csimpl.
  - rewrite list_elem_of_singleton, elem_of_nil. tauto.
  - destruct (decide (k1 = k)) as [->|Hne]; csimpl.
    + rewrite !elem_of_cons. tauto.
    + rewrite !elem_of_cons, IH. tauto.
Qed.

Lemma dict_update_NoDup {V} (k : string) (v : V) (d : list (string * V)) :
  NoDup d.*1 → NoDup (dict_update k v d).*1.
Proof.
  induction d as [|[k1 v1] d IH]; csimpl.
  - intros _. apply NoDup_singleton.
  - intros [Hk Hd]%NoDup_cons.
    destruct (decide (k1 = k)) as [->|Hne]; csimpl.
    + by apply NoDup_cons.
    + apply NoDup_cons. split; [|auto].
      rewrite dict_update_keys. intros [?|?]; done.
Qed.

Lemma dict_update_elem {V} (k : string) (v : V) (d : list (string * V)) x :
  x ∈ dict_update k v d → x = (k, v) ∨ x ∈ d.
Proof.
  induction d as [|[k1 v1] d IH]; simpl.
  - rewrite list_elem_of_singleton. tauto.
  - destruct (decide (k1 = k)); rewrite !elem_of_cons; [tauto|].
    intros [?|?%IH]; tauto.
Qed.

Lemma list_index_lookup c rank i :
  list_index c rank = Some i → rank !! i = Some c.
Proof.
  revert i. induction rank as [|c' rank IH]; simpl; intros i; [done|].
  destruct (decide (c' = c)) as [->|_]; [by intros [= <-]|].
  destruct (list_index c rank) as [k|]; simpl; [|done].
  intros [= <-]. simpl. by apply IH.
Qed.

Lemma list_index_None c rank : list_index c rank = None ↔ c ∉ rank.
Proof.
  induction rank as [|c' rank IH]; simpl.
  - split; [intros _ ?%elem_of_nil; done | done].
  - rewrite not_elem_of_cons. destruct (decide (c' = c)) as [->|Hne].
    + split; [done | intros [? _]; done].
    + destruct (list_index c rank); simpl.
      * split; [done|]. intros [_ H]. by apply IH in H.
      * split; [|done]. intros _. split; [done | by apply IH].
Qed.

Lemma list_index_app c rank rank' i :
  list_index c rank = Some i → list_index c (rank ++ rank') = Some i.
Proof.
  revert i. induction rank as [|c' rank IH]; simpl; intros i; [done|].
  destruct (decide (c' = c)); [done|].
  destruct (list_index c rank) as [k|]; simpl; [|done].
  intros [= <-]. by rewrite (IH k).
Qed.

Lemma rank_index_app rank rank' c i :
  rank_index rank c = Ok i → rank_index (rank ++ rank') c = Ok i.
Proof.
  unfold rank_index.
  destruct (list_index c rank) as [k|] eqn:Hk; [|done].
  intros [= <-]. by rewrite (list_index_app _ _ _ _ Hk).
Qed.

(** Appending a class that is already in the list moves no index. *)
Lemma rank_index_again rank c' c :
  c' ∈ rank → rank_index (rank ++ [c']) c = rank_index rank c.
Proof.
  intros Hin. unfold rank_index.
  destruct (list_index c rank) as [k|] eqn:Hk.
  - by rewrite (list_index_app _ _ _ _ Hk).
  - apply list_index_None in Hk.
    assert (list_index c (rank ++ [c']) = None) as ->; [|done].
    apply list_index_None. rewrite elem_of_app, list_elem_of_singleton.
    intros [?| ->]; done.
Qed.

Lemma rank_index_inj rank a b i :
  rank_index rank a = Ok i → rank_index rank b = Ok i → a = b.
Proof.
  unfold rank_index.
  destruct (list_index a rank) as [ia|] eqn:Ha; [|done].
  destruct (list_index b rank) as [ib|] eqn:Hb; [|done].
  intros [= <-] [= <-].
  apply list_index_lookup in Ha, Hb. congruence.
Qed.

(** [min] with the index as key picks a class of least index. *)
Lemma min_by_rank_ok rank a b c :
  min_by_rank rank a b = Ok c →
  ∃ ia ib, rank_index rank a = Ok ia ∧ rank_index rank b = Ok ib ∧
    (c = a ∨ c = b) ∧ rank_index rank c = Ok (ia `min` ib)%nat.
Proof.
  unfold min_by_rank.
  intros (ia & Ha & (ib & Hb & [= <-])%rbind_ok)%rbind_ok.
  exists ia, ib. split; [done|]. split; [done|].
  destruct (Nat.ltb_spec ib ia).
  - split; [by right|]. by rewrite Nat.min_r by lia.
  - split; [by left|]. by rewrite Nat.min_l by lia.
Qed.

(** The choice does not depend on the order of the operands. *)
Lemma min_by_rank_sym rank a b c :
  min_by_rank rank a b = Ok c → min_by_rank rank b a = Ok c.
Proof.
  unfold min_by_rank.
  intros (ia & Ha & (ib & Hb & [= <-])%rbind_ok)%rbind_ok.
  rewrite Hb, Ha. simpl. f_equal.
  destruct (Nat.ltb_spec ib ia), (Nat.ltb_spec ia ib); try done; [lia|].
  assert (ia = ib) as -> by lia. eauto using rank_index_inj.
Qed.

Lemma min_by_rank_app rank rank' a b c :
  min_by_rank rank a b = Ok c → min_by_rank (rank ++ rank') a b = Ok c.
Proof.
  unfold min_by_rank.
  intros (ia & Ha & (ib & Hb & [= <-])%rbind_ok)%rbind_ok.
  by rewrite (rank_index_app _ _ _ _ Ha), (rank_index_app _ _ _ _ Hb).
Qed.
End tables.

(** ** The registration step *)

Section registration.
Variable ext : external.
Implicit Types (v : vector.tables) (bh : behaviors).
Implicit Types (l r : string * pyclass) (rank : list pyclass).

Local Abbreviation ns := (class_statements ext).

(** A step of the inner loop writes under the tags of its pair only. *)
Lemma register_pair_frame rank l r bh op a b :
  (a, b) ≠ (l.1, r.1) →
  state_of (register_pair ext ns rank l r bh) !! (op, a, b) =
  bh !! (op, a, b).
Proof.
  destruct l as [lhs lhs_to], r as [rhs rhs_to]. simpl. intros Hne.
  case_decide; [|done].
  destruct (min_by_rank _ _ _) as [out_to|e]; [|done].
  destruct (class_getattr ext ns out_to "add") as [f|e]; [|done].
  destruct (class_getattr ext ns out_to "subtract") as [g|e]; simpl.
  - rewrite !lookup_insert_ne; [done|congruence..].
  - rewrite lookup_insert_ne; [done|congruence].
Qed.

Lemma register_pair_skip rank l r bh :
  l.1 ≠ "Candidate" → r.1 ≠ "Candidate" →
  register_pair ext ns rank l r bh = Done bh.
Proof.
  destruct l as [lhs lhs_to], r as [rhs rhs_to]. simpl. intros ? ?.
  by rewrite decide_False by tauto.
Qed.

Lemma register_pair_done rank l r bh bh' :
  register_pair ext ns rank l r bh = Done bh' →
  l.1 = "Candidate" ∨ r.1 = "Candidate" →
  registered ext rank l r bh'.
Proof.
  destruct l as [lhs lhs_to], r as [rhs rhs_to]. simpl. intros Hrun Hg.
  rewrite decide_True in Hrun by done.
  destruct (min_by_rank _ _ _) as [out_to|e] eqn:Hmin; [|done].
  destruct (class_getattr ext ns out_to "add") as [f|e] eqn:Hf; [|done].
  destruct (class_getattr ext ns out_to "subtract") as [g|e] eqn:Hsub;
    [|done].
  injection Hrun as <-. exists out_to, f, g. simpl.
  split; [done|]. split; [done|]. split; [done|]. split.
  - rewrite lookup_insert_ne by done. by rewrite lookup_insert_eq.
  - by rewrite lookup_insert_eq.
Qed.

Lemma registered_frame rank l r l' r' bh :
  (l.1, r.1) ≠ (l'.1, r'.1) →
  registered ext rank l r bh →
  registered ext rank l r (state_of (register_pair ext ns rank l' r' bh)).
Proof.
  intros Hne (out_to & f & g & ? & ? & ? & ? & ?).
  exists out_to, f, g. by rewrite !register_pair_frame.
Qed.

(** After the two loops every pair of entries with a "Candidate" side is
    registered. *)
Lemma loops_register rank (d : list (string * pyclass)) bh bh' :
  NoDup d.*1 →
  for_each (λ l, for_each (λ r, register_pair ext ns rank l r) d) d bh
    = Done bh' →
  ∀ l r, l ∈ d → r ∈ d → l.1 = "Candidate" ∨ r.1 = "Candidate" →
    registered ext rank l r bh'.
Proof.
  intros Hnd Hrun l r Hl Hr Hg.
  refine (for_each_establish fst
           (λ l bh, ∀ r, r ∈ d → l.1 = "Candidate" ∨ r.1 = "Candidate" →
                         registered ext rank l r bh)
           (λ l, for_each (λ r, register_pair ext ns rank l r) d)
           d bh bh' Hnd _ _ Hrun l Hl r Hr Hg).
  - clear l r Hl Hr Hg. intros l bh1 bh2 Hl Hinner r Hr Hg.
    refine (for_each_establish fst
             (λ r bh, l.1 = "Candidate" ∨ r.1 = "Candidate" →
                      registered ext rank l r bh)
             (λ r, register_pair ext ns rank l r)
             d bh1 bh2 Hnd _ _ Hinner r Hr Hg).
    + intros r1 s1 s2 _ Hstep Hg1. by eapply register_pair_done.
    + intros r1 r2 s1 s2 _ _ Hne HI Hstep Hg1.
      change s2 with (state_of (Done s2)). rewrite <- Hstep.
      apply registered_frame; [|auto]. congruence.
  - clear l r Hl Hr Hg. intros l l' bh1 bh2 _ _ Hne HI Hinner r Hr Hg.
    eapply (for_each_done_preserve (registered ext rank l r));
      [|by apply HI|done].
    intros r' s1 s2 _ Hreg Hstep.
    change s2 with (state_of (Done s2)). rewrite <- Hstep.
    apply registered_frame; [|done]. congruence.
Qed.

Lemma register_done v v' :
  register ext v = Done v' →
  vector._binary_dispatch_cls v' =
    dict_update "Candidate" Candidate (vector._binary_dispatch_cls v) ∧
  vector._rank v' = vector._rank v ++ [Candidate] ∧
  for_each (λ l, for_each (λ r, register_pair ext ns (vector._rank v') l r)
                          (vector._binary_dispatch_cls v'))
           (vector._binary_dispatch_cls v') (vector.behavior v)
    = Done (vector.behavior v').
Proof.
  unfold register, register_as; cbn zeta.
  destruct (for_each _ _ _) as [bh|e bh] eqn:Hrun; [|done].
  by intros [= <-].
Qed.

(** C3. After a registration that completes, for every pair of tags of
    the dispatch dict of which one is "Candidate", the behavior registry
    maps the addition and the subtraction of the pair to the [add] and the
    [subtract] of the class, among the two the tags stand for, that has the
    least index in the precedence list; the entries for the two orders of
    the pair are the same. *)
Theorem dispatch_selects_min_rank v v' :
  NoDup (vector._binary_dispatch_cls v).*1 →
  register ext v = Done v' →
  ∀ lhs lhs_to rhs rhs_to,
    (lhs, lhs_to) ∈ vector._binary_dispatch_cls v' →
    (rhs, rhs_to) ∈ vector._binary_dispatch_cls v' →
    lhs = "Candidate" ∨ rhs = "Candidate" →
    ∃ il ir out_to f g,
      rank_index (vector._rank v') lhs_to = Ok il ∧
      rank_index (vector._rank v') rhs_to = Ok ir ∧
      (out_to = lhs_to ∨ out_to = rhs_to) ∧
      rank_index (vector._rank v') out_to = Ok (il `min` ir)%nat ∧
      class_getattr ext (class_statements ext) out_to "add" = Ok f ∧
      class_getattr ext (class_statements ext) out_to "subtract" = Ok g ∧
      vector.behavior v' !! (numpy_add, lhs, rhs) = Some f ∧
      vector.behavior v' !! (numpy_subtract, lhs, rhs) = Some g ∧
      vector.behavior v' !! (numpy_add, rhs, lhs) = Some f ∧
      vector.behavior v' !! (numpy_subtract, rhs, lhs) = Some g.
Proof.
  intros Hnd (Hd & Hrank & Hrun)%register_done lhs lhs_to rhs rhs_to Hl Hr Hg.
  assert (NoDup (vector._binary_dispatch_cls v').*1) as Hnd'.
  { rewrite Hd. by apply dict_update_NoDup. }
  pose proof (loops_register _ _ _ _ Hnd' Hrun) as Hreg.
  destruct (Hreg (lhs, lhs_to) (rhs, rhs_to) Hl Hr Hg)
    as (out_to & f & g & Hmin & Hf & Hsub & Hadd1 & Hsub1).
  destruct (Hreg (rhs, rhs_to) (lhs, lhs_to) Hr Hl)
    as (out_to' & f' & g' & Hmin' & Hf' & Hsub' & Hadd2 & Hsub2).
  { simpl in *. tauto. }
  simpl in *. apply min_by_rank_sym in Hmin'.
  assert (out_to' = out_to) as -> by congruence.
  assert (f' = f) as -> by congruence.
  assert (g' = g) as -> by congruence.
  destruct (min_by_rank_ok _ _ _ _ Hmin) as (il & ir & ? & ? & ? & ?).
  exists il, ir, out_to, f, g. naive_solver.
Qed.
(** C8. Whether the registration completes or raises on the way, an entry
    of the behavior registry for an operator and two tags neither of which
    is "Candidate" is what it was before: kept if it was there, absent if
    it was not. *)
Theorem non_candidate_entries_kept v op lhs rhs :
  lhs ≠ "Candidate" → rhs ≠ "Candidate" →
  vector.behavior (state_of (register ext v)) !! (op, lhs, rhs) =
  vector.behavior v !! (op, lhs, rhs).
Proof.
  intros Hl Hr.
  set (J := λ bh : behaviors,
             bh !! (op, lhs, rhs) = vector.behavior v !! (op, lhs, rhs)).
  assert (∀ rank d1 d2 bh, J bh →
            J (state_of (for_each
                 (λ l, for_each (λ r, register_pair ext ns rank l r) d2)
                 d1 bh))) as Hloops.
  { intros rank d1 d2 bh Hbh.
    apply for_each_preserve; [|done]. intros l bh1 _ Hbh1.
    apply for_each_preserve; [|done]. intros r bh2 _ Hbh2.
    unfold J in *. rewrite <- Hbh2.
    destruct (decide (l.1 = "Candidate")) as [Hc|Hc];
      [apply register_pair_frame; congruence|].
    destruct (decide (r.1 = "Candidate")) as [Hc'|Hc'];
      [apply register_pair_frame; congruence|].
    by rewrite register_pair_skip. }
  unfold register, register_as; cbn zeta.
  specialize (Hloops (vector._rank v ++ [Candidate])
    (dict_update "Candidate" Candidate (vector._binary_dispatch_cls v))
    (dict_update "Candidate" Candidate (vector._binary_dispatch_cls v))
    (vector.behavior v) eq_refl).
  by destruct (for_each _ _ _).
Qed.
Lemma register_pair_completes rank l r bh :
  l.2 ∈ rank → r.2 ∈ rank →
  (∀ c, c = l.2 ∨ c = r.2 →
     ∃ f g, class_getattr ext ns c "add" = Ok f ∧
            class_getattr ext ns c "subtract" = Ok g) →
  is_done (register_pair ext ns rank l r bh) = true.
Proof.
  destruct l as [lhs lhs_to], r as [rhs rhs_to]. simpl.
  intros Hl Hr Hattr. case_decide; [|done].
  destruct (min_by_rank rank lhs_to rhs_to) as [out_to|e] eqn:Hmin.
  - destruct (min_by_rank_ok _ _ _ _ Hmin) as (_ & _ & _ & _ & Hout & _).
    destruct (Hattr out_to) as (f & g & -> & ->); [tauto | done].
  - unfold min_by_rank, rank_index in Hmin.
    destruct (list_index lhs_to rank) eqn:H1;
      [|by apply list_index_None in H1].
    destruct (list_index rhs_to rank) eqn:H2;
      [done | by apply list_index_None in H2].
Qed.

(** X15. The registration completes when every class of the dispatch dict is
    in the precedence list and has an [add] and a [subtract], and the base
    of [Candidate] brings it a [subtract]. *)
Lemma register_completes v :
  (∀ k c, (k, c) ∈ vector._binary_dispatch_cls v →
     c ∈ vector._rank v ∧
     ∃ f g, class_getattr ext ns c "add" = Ok f ∧
            class_getattr ext ns c "subtract" = Ok g) →
  (∃ g, class_getattr ext ns Candidate "subtract" = Ok g) →
  ∃ v', register ext v = Done v'.
Proof.
  intros Hd [g Hg].
  assert (∀ x, x ∈ dict_update "Candidate" Candidate
                     (vector._binary_dispatch_cls v) →
            x.2 ∈ vector._rank v ++ [Candidate] ∧
            ∃ f g, class_getattr ext ns x.2 "add" = Ok f ∧
                   class_getattr ext ns x.2 "subtract" = Ok g) as Hall.
  { intros [k c] [[= -> ->]|Hx]%dict_update_elem; simpl.
    - split; [apply elem_of_app; right; left|]. by exists (Function Candidate "add"), g.
    - destruct (Hd k c Hx) as [? ?]. split; [|done].
      apply elem_of_app. by left. }
  unfold register, register_as; cbn zeta.
  match goal with
  | |- context [for_each ?b ?l ?s] =>
      assert (is_done (for_each b l s) = true) as Hdone
  end.
  { apply for_each_completes. intros l bh1 Hl.
    apply for_each_completes. intros r bh2 Hr.
    apply register_pair_completes; [by apply Hall..|].
    intros c [->| ->]; by apply Hall. }
  destruct (for_each _ _ _); [eauto | done].
Qed.

Lemma register_rank v :
  vector._rank (state_of (register ext v)) = vector._rank v ++ [Candidate].
Proof. unfold register, register_as. by destruct (for_each _ _ _). Qed.

End registration.

(** ** The class attributes *)

Section classes.
Variable ext : external.

(** [Candidate] has no [subtract] of its own: the attribute is the one of
    [vector.LorentzVector]. *)
Lemma Candidate_subtract_inherited :
  class_statements ext Candidate !! "subtract" = None ∧
  class_getattr ext (class_statements ext) Candidate "subtract" =
  class_getattr ext (class_statements ext) (Vector "LorentzVector")
    "subtract".
Proof. split; reflexivity. Qed.

(** [Candidate.add] is the [add] of the body of [Candidate]. *)
Lemma Candidate_add_own :
  class_getattr ext (class_statements ext) Candidate "add" =
  Ok (Function Candidate "add").
Proof. reflexivity. Qed.

(** The last assignment stores [MomentumClass] in the namespace of the
    mixin [PtEtaPhiECandidate], not in the one of its array class; the
    array class finds it there. *)
Lemma MomentumClass_of_the_energy_variant :
  loaded_classes ext PtEtaPhiECandidateArray !! "MomentumClass" = None ∧
  loaded_classes ext PtEtaPhiECandidate !! "MomentumClass" =
    Some (Class PtEtaPhiECandidateArray) ∧
  loaded_classes ext PtEtaPhiMCandidateArray !! "MomentumClass" =
    Some (Class PtEtaPhiMCandidateArray) ∧
  loaded_classes ext CandidateArray !! "MomentumClass" =
    Some (Class CandidateArray).
Proof. repeat split; vm_compute; reflexivity. Qed.

(** C5. When the module is loaded, each of the three array classes has
    [vector.TwoVectorArray] as its [ProjectionClass2D],
    [vector.ThreeVectorArray] as its [ProjectionClass3D], and itself as
    its [MomentumClass]. *)
Theorem array_class_attributes c :
  c ∈ [CandidateArray; PtEtaPhiMCandidateArray; PtEtaPhiECandidateArray] →
  class_getattr ext (loaded_classes ext) c "ProjectionClass2D" =
    Ok (Class (Vector "TwoVectorArray")) ∧
  class_getattr ext (loaded_classes ext) c "ProjectionClass3D" =
    Ok (Class (Vector "ThreeVectorArray")) ∧
  class_getattr ext (loaded_classes ext) c "MomentumClass" = Ok (Class c).
Proof.
  intros Hc.
  repeat (apply elem_of_cons in Hc as [Heq|Hc];
          [subst c; repeat split; vm_compute; reflexivity|]).
  by apply elem_of_nil in Hc.
Qed.
End classes.

Lemma array_class_attributes_witness :
  class_getattr example_ext (loaded_classes example_ext)
    PtEtaPhiECandidateArray "ProjectionClass2D" =
    Ok (Class (Vector "TwoVectorArray")) ∧
  class_getattr example_ext (loaded_classes example_ext)
    PtEtaPhiECandidateArray "ProjectionClass3D" =
    Ok (Class (Vector "ThreeVectorArray")) ∧
  class_getattr example_ext (loaded_classes example_ext)
    PtEtaPhiECandidateArray "MomentumClass" =
    Ok (Class PtEtaPhiECandidateArray).
Proof.
  apply (array_class_attributes example_ext PtEtaPhiECandidateArray).
  solve_elem.
Defined.

(** ** The example tables *)

Lemma example_registers :
  register example_ext example_tables = Done example_loaded.
Proof.
  unfold example_loaded.
  assert (is_done (register example_ext example_tables) = true) as H
    by (vm_compute; reflexivity).
  by destruct (register example_ext example_tables).
Qed.

Lemma dispatch_selects_min_rank_witness :
  ∃ il ir out_to f g,
    rank_index (vector._rank example_loaded) Candidate = Ok il ∧
    rank_index (vector._rank example_loaded) (Vector "LorentzVector") = Ok ir ∧
    (out_to = Candidate ∨ out_to = Vector "LorentzVector") ∧
    rank_index (vector._rank example_loaded) out_to = Ok (il `min` ir)%nat ∧
    class_getattr example_ext (class_statements example_ext) out_to "add"
      = Ok f ∧
    class_getattr example_ext (class_statements example_ext) out_to "subtract"
      = Ok g ∧
    vector.behavior example_loaded !! (numpy_add, "Candidate", "LorentzVector")
      = Some f ∧
    vector.behavior example_loaded
      !! (numpy_subtract, "Candidate", "LorentzVector") = Some g ∧
    vector.behavior example_loaded !! (numpy_add, "LorentzVector", "Candidate")
      = Some f ∧
    vector.behavior example_loaded
      !! (numpy_subtract, "LorentzVector", "Candidate") = Some g.
Proof.
  apply (dispatch_selects_min_rank example_ext example_tables example_loaded).
  - apply (bool_decide_unpack _). vm_compute. exact I.
  - exact example_registers.
  - vm_compute. solve_elem.
  - vm_compute. solve_elem.
  - left. reflexivity.
Defined.

Lemma non_candidate_entries_kept_witness :
  vector.behavior example_loaded !! (numpy_add, "TwoVector", "ThreeVector") =
  vector.behavior example_tables !! (numpy_add, "TwoVector", "ThreeVector").
Proof.
  apply (non_candidate_entries_kept example_ext example_tables); discriminate.
Defined.

(** ** Further properties of [add] and [sum] *)

Section more_candidate.
Implicit Types (A B R : Array) (f g : string) (e : exn).

Lemma assoc_None {V} (k : string) (l : list (string * V)) :
  k ∉ l.*1 → assoc k l = None.
Proof.
  induction l as [|[k' v] l IH]; csimpl; [done|].
  intros [Hne Hk]%not_elem_of_cons. by rewrite decide_False, IH.
Qed.

Lemma rmapM_ext_eq {X Y} (h k : X → result Y) (l : list X) :
  (∀ x, x ∈ l → h x = k x) → rmapM h l = rmapM k l.
Proof.
  induction l as [|x l IH]; simpl; intros Hhk; [done|].
  rewrite (Hhk x) by left. rewrite IH; [done|].
  intros x' ?. apply Hhk. by right.
Qed.

Lemma rmapM_first_raise {X Y} (h : X → result Y) (pre post : list X) x e :
  (∀ y, y ∈ pre → ∃ c, h y = Ok c) → h x = Raise e →
  rmapM h (pre ++ x :: post) = Raise e.
Proof.
  induction pre as [|y pre IH]; simpl; intros Hpre Hx.
  - by rewrite Hx.
  - destruct (Hpre y) as [c ->]; [left|]. simpl.
    rewrite IH; [done| |done]. intros y' ?. apply Hpre. by right.
Qed.

(** X1. The array returned by [add] or [sum] stores nothing but x, y, z, t
    and charge: a field of the operands that is not one of the five, a mass
    or a pt, is not a field of the result.  (An attribute of that name may
    still be computed from the five by the vector mixin of the result.) *)
Theorem result_has_only_candidate_fields A B axis R g :
  Candidate.add A B = Ok R ∨ Candidate.sum A axis = Ok R →
  g ∉ candidate_fields →
  assoc g (fields R) = None.
Proof.
  rewrite add_zip_fields, sum_zip_fields.
  intros [H|H] Hg; apply zip_fields_ok in H as (s & _ & _ & Hf & _);
    rewrite assoc_None; try done; by rewrite Hf.
Qed.

Lemma result_has_only_candidate_fields_witness :
  (Candidate.add exM exM = Ok exMM ∨ Candidate.sum exM 0 = Ok exMM) ∧
  ("mass" ∉ candidate_fields) ∧
  assoc "mass" (fields exM) = Some (Flat [5]) ∧
  assoc "mass" (fields exMM) = None.
Proof.
  assert ("mass" ∉ candidate_fields) as Hg
    by (apply (bool_decide_unpack _); vm_compute; exact I).
  split; [left; reflexivity|]. split; [exact Hg|]. split; [reflexivity|].
  apply (result_has_only_candidate_fields exM exM 0 exMM "mass");
    [left; reflexivity | exact Hg].
Defined.

(** X2. [add] and [sum] read the five attributes of their operands and the
    behavior of [self], and nothing else: operands that agree on these give
    the same outcome, result or exception, whatever their tags, their other
    fields and the behavior of [other]. *)
Theorem methods_read_five_attributes A A' B B' axis :
  (∀ f, f ∈ candidate_fields → getattr A f = getattr A' f) →
  (∀ f, f ∈ candidate_fields → getattr B f = getattr B' f) →
  behavior A = behavior A' →
  Candidate.add A B = Candidate.add A' B' ∧
  Candidate.sum A axis = Candidate.sum A' axis.
Proof.
  intros HA HB Hb. rewrite !add_zip_fields, !sum_zip_fields.
  unfold zip_fields. rewrite <- Hb. split.
  - rewrite (rmapM_ext_eq (add_field A B) (add_field A' B')); [done|].
    intros f Hf. unfold add_field. by rewrite HA, HB.
  - rewrite (rmapM_ext_eq (sum_field A axis) (sum_field A' axis)); [done|].
    intros f Hf. unfold sum_field. by rewrite HA.
Qed.

Lemma methods_read_five_attributes_witness :
  Candidate.add exM exB = Candidate.add exMplain exB ∧
  Candidate.sum exM 0 = Candidate.sum exMplain 0.
Proof.
  apply (methods_read_five_attributes exM exMplain exB exB 0);
    [| |reflexivity]; intros f Hf;
    repeat (apply elem_of_cons in Hf as [Hf|Hf]; [by rewrite Hf|]);
    by apply elem_of_nil in Hf.
Defined.

(** X3. The fields are computed in the order x, y, z, t, charge, and the
    first one that fails decides the exception: when the fields before [f]
    are computed and the computation of [f] raises [e], the method raises
    [e], whatever the later fields would do. *)
Theorem first_failing_field_decides A B axis pre f post e :
  candidate_fields = pre ++ f :: post →
  ((∀ g, g ∈ pre → ∃ c, add_field A B g = Ok c) →
   add_field A B f = Raise e → Candidate.add A B = Raise e) ∧
  ((∀ g, g ∈ pre → ∃ c, sum_field A axis g = Ok c) →
   sum_field A axis f = Raise e → Candidate.sum A axis = Raise e).
Proof.
  intros Hsplit. rewrite add_zip_fields, sum_zip_fields.
  unfold zip_fields. rewrite Hsplit.
  split; intros Hpre Hf; by rewrite (rmapM_first_raise _ pre post f e).
Qed.

Lemma first_failing_field_decides_witness :
  Candidate.add exNoZ exJ = Raise (AttributeError "z").
Proof.
  apply (proj1 (first_failing_field_decides exNoZ exJ 0 ["x"; "y"] "z"
                  ["t"; "charge"] (AttributeError "z") eq_refl)).
  - intros g Hg.
    repeat (apply elem_of_cons in Hg as [Hg|Hg];
            [rewrite Hg; eexists; vm_compute; reflexivity|]).
    by apply elem_of_nil in Hg.
  - reflexivity.
Defined.
Lemma add_swap A B R :
  Candidate.add A B = Ok R →
  Candidate.add B A =
    Ok (mkArray (fields R) (with_name R) (behavior B)) ∧
  behavior R = behavior A.
Proof.
  rewrite !add_zip_fields. unfold zip_fields.
  intros (cols & Hcols & Hzip)%rbind_ok.
  rewrite (rmapM_ext (add_field A B) (add_field B A) _ cols); [|..|done].
  - cbn [rbind]. unfold ak_zip in *.
    apply rbind_ok in Hzip as (s & Hs & [= <-]). rewrite Hs. done.
  - intros f c _. unfold add_field.
    intros (a & -> & (b & -> & Hadd)%rbind_ok)%rbind_ok. simpl.
    by rewrite ak_add_comm.
Qed.

(** X4. The two orders of an addition differ by the behavior registry only:
    [A.add(B)] carries the registry of [A] and [B.add(A)] the one of [B], so
    the two arrays are the same exactly when the operands carry the same
    registry. *)
Theorem add_orders_equal_iff_same_behavior A B R R' :
  Candidate.add A B = Ok R → Candidate.add B A = Ok R' →
  (R = R' ↔ behavior A = behavior B).
Proof.
  intros HAB HBA. destruct (add_swap A B R HAB) as [HBA' Hb].
  rewrite HBA in HBA'. injection HBA' as ->. destruct R as [fs n b].
  simpl in *. subst b. split; [by intros [= ?] | by intros ->].
Qed.

Lemma add_orders_equal_iff_same_behavior_witness :
  exAB = exAB ↔ behavior exA = behavior exB.
Proof.
  apply (add_orders_equal_iff_same_behavior exA exB exAB exAB); reflexivity.
Defined.

(** The five fields of a zip have one shape. *)
Lemma zip_fields_one_shape (h : string → result column) b R :
  zip_fields h b = Ok R →
  ∃ s, ∀ f, f ∈ candidate_fields →
    ∃ c, getattr R f = Ok c ∧ shape_of c = s.
Proof.
  intros (s & _ & _ & _ & Hget & _)%zip_fields_ok. exists s. intros f Hf.
  destruct (Hget f Hf) as (c & _ & HR & Hj).
  exists (broadcast_to s c). split; [done|]. by eapply shape_broadcast.
Qed.

(** X5. An array that [add] or [sum] returns can be given to the methods
    again: its five fields are stored with one shape, and when that is the
    shape of an array, not of a single record, adding it to itself returns,
    and so does summing it along any axis valid for that shape. *)
Theorem result_is_a_candidate A B axis R :
  Candidate.add A B = Ok R ∨ Candidate.sum A axis = Ok R →
  ∃ s, (∀ f, f ∈ candidate_fields →
          ∃ c, assoc f (fields R) = Some c ∧ shape_of c = s) ∧
       (s ≠ SScalar →
        (∃ R2, Candidate.add R R = Ok R2) ∧
        (∀ axis' c, getattr R "x" = Ok c → - depth c ≤ axis' < depth c →
           ∃ R3, Candidate.sum R axis' = Ok R3)).
Proof.
  rewrite add_zip_fields, sum_zip_fields.
  intros H.
  assert (∃ s, ∀ f, f ∈ candidate_fields →
            ∃ c, getattr R f = Ok c ∧ shape_of c = s) as [s Hs]
    by (destruct H as [H|H]; by eapply zip_fields_one_shape).
  exists s. split; [|intros _; split].
  - intros f Hf. destruct (Hs f Hf) as (c & Hc & ?). exists c.
    split; [|done]. unfold getattr in Hc.
    by destruct (assoc f (fields R)); simplify_eq.
  - apply (add_returns R R s). intros f Hf.
    destruct (Hs f Hf) as (c & ? & ?). by exists c, c.
  - intros axis' cx Hx Hax. apply (sum_returns R axis' s).
    intros f Hf. destruct (Hs f Hf) as (c & Hc & Hsc).
    exists c. split; [done|]. split; [done|].
    destruct (Hs "x") as (cx' & Hx' & Hsx); [solve_elem|].
    assert (cx' = cx) as -> by congruence.
    assert (depth c = depth cx) as ->; [|done].
    destruct c, cx; simpl in *; congruence.
Qed.

Lemma result_is_a_candidate_witness :
  ∃ s, (∀ f, f ∈ candidate_fields →
          ∃ c, assoc f (fields exRows) = Some c ∧ shape_of c = s) ∧
       (s ≠ SScalar →
        (∃ R2, Candidate.add exRows exRows = Ok R2) ∧
        (∀ axis' c, getattr exRows "x" = Ok c →
           - depth c ≤ axis' < depth c →
           ∃ R3, Candidate.sum exRows axis' = Ok R3)).
Proof.
  apply (result_is_a_candidate exEvents exEvents 1 exRows).
  right. reflexivity.
Defined.

Lemma ak_sum_innermost c : 1 ≤ depth c → ak_sum c (-1) = ak_sum c (depth c - 1).
Proof. destruct c; simpl; [lia | done | done]. Qed.

(** X6. The default axis is the innermost dimension: on an array whose
    five fields have depth [d], at least one, [sum()] is [sum(axis=d-1)]. *)
Theorem sum_default_is_innermost A d :
  1 ≤ d →
  (∀ f c, f ∈ candidate_fields → getattr A f = Ok c → depth c = d) →
  Candidate.sum_default A = Candidate.sum A (d - 1).
Proof.
  intros Hd Hdepth. unfold Candidate.sum_default.
  rewrite !sum_zip_fields. unfold zip_fields.
  rewrite (rmapM_ext_eq (sum_field A (-1)) (sum_field A (d - 1))); [done|].
  intros f Hf. unfold sum_field.
  destruct (getattr A f) as [c|e] eqn:Hc; [|done]. simpl.
  rewrite <- (Hdepth f c Hf Hc). apply ak_sum_innermost.
  rewrite (Hdepth f c Hf Hc). done.
Qed.

Lemma sum_default_is_innermost_witness :
  Candidate.sum_default three = Candidate.sum three (1 - 1).
Proof.
  apply (sum_default_is_innermost three 1); [lia|].
  intros f c Hf.
  repeat (apply elem_of_cons in Hf as [Hf|Hf];
          [rewrite Hf; vm_compute; by intros [= <-]|]).
  by apply elem_of_nil in Hf.
Defined.
Lemma add_field_swap A B f : add_field A B f = add_field B A f.
Proof.
  unfold add_field, getattr.
  destruct (assoc f (fields A)), (assoc f (fields B)); simpl; try done.
  apply ak_add_comm.
Qed.

(** X7. The two orders of an addition fail together: [A.add(B)] raises
    exactly when [B.add(A)] does. *)
Theorem add_orders_raise_together A B :
  raises (Candidate.add A B) ↔ raises (Candidate.add B A).
Proof.
  rewrite !add_zip_fields. unfold zip_fields.
  rewrite (rmapM_ext_eq (add_field A B) (add_field B A))
    by (intros; apply add_field_swap).
  destruct (rmapM (add_field B A) candidate_fields) as [cols|e]; simpl;
    [|split; intros _; by exists e].
  unfold ak_zip. destruct (common_shape _) as [s|e]; simpl.
  - split; intros [e [=]].
  - split; intros _; by exists e.
Qed.
End more_candidate.

(** ** Further properties of the registration *)

Section more_registration.
Variable ext : external.
Implicit Types (v : vector.tables) (bh : behaviors) (c : pyclass).
Implicit Types (l r : string * pyclass) (rank : list pyclass).
Implicit Types (d : list (string * pyclass)).

Local Abbreviation ns := (class_statements ext).

Lemma register_dispatch v :
  vector._binary_dispatch_cls (state_of (register ext v)) =
  dict_update "Candidate" Candidate (vector._binary_dispatch_cls v).
Proof. unfold register, register_as. by destruct (for_each _ _ _). Qed.

Lemma assoc_dict_update {V} (k k' : string) (x : V) (d : list (string * V)) :
  assoc k' (dict_update k x d) = if decide (k' = k) then Some x else assoc k' d.
Proof.
  induction d as [|[k1 x1] d IH]; simpl.
  - by destruct (decide (k' = k)).
  - destruct (decide (k1 = k)) as [->|Hne]; simpl.
    + by destruct (decide (k' = k)).
    + rewrite IH. destruct (decide (k' = k1)) as [->|]; [|done].
      by rewrite decide_False.
Qed.

Lemma dict_update_new {V} (k : string) (x : V) (d : list (string * V)) :
  k ∉ d.*1 → dict_update k x d = d ++ [(k, x)].
Proof.
  induction d as [|[k1 x1] d IH]; csimpl; [done|].
  intros [Hne Hk]%not_elem_of_cons. by rewrite decide_False, IH.
Qed.

Lemma dict_update_old {V} (k : string) (x : V) (d : list (string * V)) :
  k ∈ d.*1 → (dict_update k x d).*1 = d.*1.
Proof.
  induction d as [|[k1 x1] d IH]; csimpl; [by intros ?%elem_of_nil|].
  destruct (decide (k1 = k)) as [->|Hne]; csimpl; [done|].
  intros [?|Hk]%elem_of_cons; [done|]. by rewrite IH.
Qed.

Lemma dict_update_here {V} (k : string) (x : V) (d : list (string * V)) :
  (k, x) ∈ dict_update k x d.
Proof.
  induction d as [|[k1 x1] d IH]; simpl; [left|].
  destruct (decide (k1 = k)); [left | by right].
Qed.

Lemma dict_update_other {V} (k k' : string) (x y : V)
    (d : list (string * V)) :
  k' ≠ k → (k', y) ∈ d → (k', y) ∈ dict_update k x d.
Proof.
  intros Hne. induction d as [|[k1 x1] d IH]; simpl;
    [by intros ?%elem_of_nil|].
  intros [[= <- <-]|Hin]%elem_of_cons.
  - rewrite decide_False by done. left.
  - destruct (decide (k1 = k)); right; auto.
Qed.

(** X8. Whether the registration completes or raises, the dispatch dict
    then maps "Candidate" to the class [Candidate] and every other tag to
    what it mapped to before; a tag "Candidate" that was not there comes
    last, one that was there keeps its place. *)
Theorem registration_binds_Candidate v :
  let d := vector._binary_dispatch_cls v in
  let d' := vector._binary_dispatch_cls (state_of (register ext v)) in
  assoc "Candidate" d' = Some Candidate ∧
  (∀ k, k ≠ "Candidate" → assoc k d' = assoc k d) ∧
  ("Candidate" ∉ d.*1 → d' = d ++ [("Candidate", Candidate)]) ∧
  ("Candidate" ∈ d.*1 → d'.*1 = d.*1).
Proof.
  simpl. rewrite register_dispatch. split; [|split; [|split]].
  - by rewrite assoc_dict_update, decide_True.
  - intros k Hk. by rewrite assoc_dict_update, decide_False.
  - apply dict_update_new.
  - apply dict_update_old.
Qed.

Lemma list_index_last c rank :
  c ∉ rank → list_index c (rank ++ [c]) = Some (length rank).
Proof.
  induction rank as [|c' rank IH]; simpl.
  - intros _. by rewrite decide_True.
  - intros [Hne Hc]%not_elem_of_cons.
    rewrite decide_False by done. by rewrite IH.
Qed.

Lemma list_index_lt c rank i :
  list_index c rank = Some i → (i < length rank)%nat.
Proof. intros H%list_index_lookup. by eapply lookup_lt_Some. Qed.

(** X9. Whether the registration completes or raises, every class that was
    in the precedence list keeps its index, and [Candidate], when it was not
    there, gets the last index: it yields to every class ranked before the
    module was loaded. *)
Theorem registration_keeps_precedence v :
  let rank' := vector._rank (state_of (register ext v)) in
  (∀ c i, rank_index (vector._rank v) c = Ok i → rank_index rank' c = Ok i) ∧
  (Candidate ∉ vector._rank v →
   rank_index rank' Candidate = Ok (length (vector._rank v))) ∧
  (∀ c, (∃ i, rank_index rank' c = Ok i) ↔
        c = Candidate ∨ c ∈ vector._rank v).
Proof.
  simpl. rewrite register_rank. split; [|split].
  - intros c i. apply rank_index_app.
  - intros Hc. unfold rank_index. by rewrite list_index_last.
  - intros c. unfold rank_index.
    destruct (list_index c (vector._rank v ++ [Candidate])) as [i|] eqn:Hi.
    + split; [intros _|eauto].
      apply list_index_lookup, list_elem_of_lookup_2 in Hi.
      apply elem_of_app in Hi as [?|?%list_elem_of_singleton]; auto.
    + apply list_index_None in Hi. split; [by intros [? [=]]|].
      intros [->|Hc]; exfalso; apply Hi; apply elem_of_app;
        [right; left | by left].
Qed.

(** X10. Whether the registration completes or raises, the only entries of
    the behavior registry it can write are those of an operator and two tags
    of the dispatch dict of which one is "Candidate": every other entry, also
    one with a "Candidate" side and an unregistered tag, is what it was. *)
Theorem registration_writes_registered_pairs_only v op lhs rhs :
  let v' := state_of (register ext v) in
  ¬ (lhs ∈ (vector._binary_dispatch_cls v').*1 ∧
     rhs ∈ (vector._binary_dispatch_cls v').*1 ∧
     (lhs = "Candidate" ∨ rhs = "Candidate")) →
  vector.behavior v' !! (op, lhs, rhs) = vector.behavior v !! (op, lhs, rhs).
Proof.
  simpl. rewrite register_dispatch. intros Hkey.
  set (d' := dict_update "Candidate" Candidate (vector._binary_dispatch_cls v))
    in *.
  set (J := λ bh : behaviors,
             bh !! (op, lhs, rhs) = vector.behavior v !! (op, lhs, rhs)).
  assert (∀ rank bh, J bh →
            J (state_of (for_each
                 (λ l, for_each (λ r, register_pair ext ns rank l r) d')
                 d' bh))) as Hloops.
  { intros rank bh Hbh.
    apply for_each_preserve; [|done]. intros l bh1 Hl Hbh1.
    apply for_each_preserve; [|done]. intros r bh2 Hr Hbh2.
    unfold J in *. rewrite <- Hbh2.
    destruct (decide ((lhs, rhs) = (l.1, r.1))) as [[= -> ->]|Hne];
      [|by apply register_pair_frame].
    rewrite register_pair_skip; [done|..]; intros Hc; apply Hkey;
      (split; [by apply list_elem_of_fmap_2|]);
      (split; [by apply list_elem_of_fmap_2|]); auto. }
  unfold register, register_as; cbn zeta. fold d'.
  specialize (Hloops (vector._rank v ++ [Candidate]) (vector.behavior v)
                eq_refl).
  by destruct (for_each _ _ _).
Qed.

(** X11. After a registration that completes, adding two arrays tagged
    "Candidate" is dispatched to the [add] of the body of [Candidate], and
    subtracting them to the [subtract] that [vector.LorentzVector] has:
    the module gives subtraction no function of its own. *)
Theorem candidate_pair_entries v v' :
  NoDup (vector._binary_dispatch_cls v).*1 →
  register ext v = Done v' →
  vector.behavior v' !! (numpy_add, "Candidate", "Candidate") =
    Some (Function Candidate "add") ∧
  ∃ g, vector.behavior v' !! (numpy_subtract, "Candidate", "Candidate") =
         Some g ∧
       class_getattr ext ns (Vector "LorentzVector") "subtract" = Ok g.
Proof.
  intros Hnd (Hd & Hrank & Hrun)%register_done.
  assert (NoDup (vector._binary_dispatch_cls v').*1) as Hnd'
    by (rewrite Hd; by apply dict_update_NoDup).
  assert (("Candidate", Candidate) ∈ vector._binary_dispatch_cls v') as Hin
    by (rewrite Hd; apply dict_update_here).
  destruct (loops_register ext _ _ _ _ Hnd' Hrun _ _ Hin Hin)
    as (out_to & f & g & Hmin & Hf & Hg & Hadd & Hsub); [by left|].
  simpl in *.
  destruct (min_by_rank_ok _ _ _ _ Hmin) as (_ & _ & _ & _ & Hout & _).
  assert (out_to = Candidate) as -> by tauto.
  split.
  - rewrite Hadd. f_equal. pose proof (Candidate_add_own ext). congruence.
  - exists g. split; [done|].
    by destruct (Candidate_subtract_inherited ext) as [_ <-].
Qed.

(** X12. After a registration that completes on a precedence list that did
    not hold [Candidate], a "Candidate" paired in either order with another
    tag of the dispatch dict is dispatched to the [add] and the [subtract]
    of the class of that tag: the other class always wins, and what its
    methods do with the charge decides what becomes of it. *)
Theorem other_class_wins v v' t c :
  NoDup (vector._binary_dispatch_cls v).*1 →
  register ext v = Done v' →
  Candidate ∉ vector._rank v →
  (t, c) ∈ vector._binary_dispatch_cls v →
  t ≠ "Candidate" → c ≠ Candidate →
  ∃ f g,
    class_getattr ext ns c "add" = Ok f ∧
    class_getattr ext ns c "subtract" = Ok g ∧
    vector.behavior v' !! (numpy_add, "Candidate", t) = Some f ∧
    vector.behavior v' !! (numpy_subtract, "Candidate", t) = Some g ∧
    vector.behavior v' !! (numpy_add, t, "Candidate") = Some f ∧
    vector.behavior v' !! (numpy_subtract, t, "Candidate") = Some g.
Proof.
  intros Hnd (Hd & Hrank & Hrun)%register_done Hnew Htc Ht Hc.
  assert (NoDup (vector._binary_dispatch_cls v').*1) as Hnd'
    by (rewrite Hd; by apply dict_update_NoDup).
  assert (("Candidate", Candidate) ∈ vector._binary_dispatch_cls v') as Hin
    by (rewrite Hd; apply dict_update_here).
  assert ((t, c) ∈ vector._binary_dispatch_cls v') as Hin'
    by (rewrite Hd; by apply dict_update_other).
  pose proof (loops_register ext _ _ _ _ Hnd' Hrun) as Hreg.
  destruct (Hreg _ _ Hin Hin') as (o1 & f & g & Hmin1 & Hf & Hg & Ha1 & Hs1);
    [by left|].
  destruct (Hreg _ _ Hin' Hin) as (o2 & f' & g' & Hmin2 & Hf' & Hg' & Ha2 & Hs2);
    [by right|].
  simpl in *.
  assert (∃ i, rank_index (vector._rank v') c = Ok i ∧
               (i < length (vector._rank v))%nat ∧
               rank_index (vector._rank v') Candidate
                 = Ok (length (vector._rank v))) as (i & Hi & Hlt & Hcand).
  { destruct (min_by_rank_ok _ _ _ _ Hmin1) as (ia & ib & Hia & Hib & _).
    exists ib. split; [done|]. rewrite Hrank in *. split.
    - unfold rank_index in Hib.
      destruct (list_index c (vector._rank v ++ [Candidate])) as [k|] eqn:Hk;
        [|done].
      injection Hib as ->.
      pose proof (list_index_lookup _ _ _ Hk) as Hlook.
      destruct (decide (ib < length (vector._rank v))%nat) as [|Hge];
        [done|].
      rewrite lookup_app_r in Hlook by lia.
      apply list_elem_of_lookup_2, list_elem_of_singleton in Hlook. done.
    - unfold rank_index. by rewrite list_index_last. }
  assert (o1 = c) as ->.
  { unfold min_by_rank in Hmin1. rewrite Hcand, Hi in Hmin1. simpl in Hmin1.
    destruct (Nat.ltb_spec i (length (vector._rank v))); [|lia].
    by injection Hmin1. }
  assert (o2 = c) as ->.
  { unfold min_by_rank in Hmin2. rewrite Hcand, Hi in Hmin2. simpl in Hmin2.
    destruct (Nat.ltb_spec (length (vector._rank v)) i); [lia|].
    by injection Hmin2. }
  exists f, g. repeat split; try done; congruence.
Qed.
Lemma for_each_fails {X S} (body : X → S → outcome S) (xs : list X) s x :
  x ∈ xs → (∀ s1, is_done (body x s1) = false) →
  is_done (for_each body xs s) = false.
Proof.
  revert s. induction xs as [|y xs IH]; simpl; intros s;
    [by intros ?%elem_of_nil|].
  intros [->|Hx]%elem_of_cons Hbody.
  - specialize (Hbody s). by destruct (body y s).
  - destruct (body y s) as [s1|e s1]; [by apply IH | done].
Qed.

Lemma for_each_raised {X S} (body : X → S → outcome S) (xs : list X) s e s' :
  for_each body xs s = Raised e s' →
  ∃ x s1, x ∈ xs ∧ body x s1 = Raised e s'.
Proof.
  revert s. induction xs as [|y xs IH]; simpl; intros s; [done|].
  destruct (body y s) as [s1|e1 s1] eqn:Hy.
  - intros (x & s2 & ? & ?)%IH. exists x, s2. split; [by right | done].
  - intros [= <- <-]. exists y, s. split; [left | done].
Qed.

(** X13. A tag of the dispatch dict whose class is not in the precedence
    list makes the registration raise: the module cannot be loaded. The tag
    "Candidate" and the class are registered all the same when it does. *)
Theorem unranked_class_fails v k c :
  (k, c) ∈ vector._binary_dispatch_cls v →
  k ≠ "Candidate" → c ≠ Candidate → c ∉ vector._rank v →
  ∃ e v', register ext v = Raised e v' ∧
    assoc "Candidate" (vector._binary_dispatch_cls v') = Some Candidate ∧
    Candidate ∈ vector._rank v'.
Proof.
  intros Hkc Hk Hc Hrank.
  assert (is_done (register ext v) = false) as Hfail.
  { unfold register, register_as; cbn zeta.
    match goal with
    | |- context [for_each ?b ?l ?s] =>
        assert (is_done (for_each b l s) = false) as Hloops
    end.
    { apply (for_each_fails _ _ _ (k, c)); [by apply dict_update_other|].
      intros bh1.
      apply (for_each_fails _ _ _ ("Candidate", Candidate));
        [apply dict_update_here|].
      intros bh2. simpl. rewrite decide_True by (by right).
      unfold min_by_rank, rank_index.
      assert (list_index c (vector._rank v ++ [Candidate]) = None) as ->;
        [|done].
      apply list_index_None. rewrite elem_of_app, list_elem_of_singleton.
      tauto. }
    by destruct (for_each _ _ _). }
  pose proof (register_dispatch v) as Hd.
  pose proof (register_rank ext v) as Hr.
  destruct (register ext v) as [v'|e v']; [done|]. simpl in *.
  exists e, v'. split; [done|]. split.
  - by rewrite Hd, assoc_dict_update, decide_True.
  - rewrite Hr, elem_of_app, list_elem_of_singleton. by right.
Qed.

(** X14. The registration raises nothing of its own: when it raises, the
    exception is the one of the list index, for a class that is not in the
    precedence list, or the one of the lookup of [add] or of [subtract] on
    the class that was picked. *)
Theorem registration_exceptions v e v' :
  register ext v = Raised e v' →
  e = ValueError "is not in list" ∨ e = AttributeError "add" ∨
  e = AttributeError "subtract".
Proof.
  unfold register, register_as; cbn zeta.
  destruct (for_each _ _ _) as [bh|e1 bh] eqn:Hrun; [done|].
  intros [= <- _].
  apply for_each_raised in Hrun as (l & bh1 & _ & Hrun).
  apply for_each_raised in Hrun as (r & bh2 & _ & Hrun).
  destruct l as [lhs lhs_to], r as [rhs rhs_to]. simpl in Hrun.
  case_decide; [|done].
  destruct (min_by_rank _ _ _) as [out_to|e2] eqn:Hmin.
  - unfold class_getattr in Hrun.
    destruct (lookup_along ns "add" (mro ext out_to)); [|by injection Hrun; auto].
    destruct (lookup_along ns "subtract" (mro ext out_to)); [done|].
    injection Hrun; auto.
  - injection Hrun as <- _. left.
    unfold min_by_rank, rank_index in Hmin.
    destruct (list_index lhs_to _); simpl in Hmin; [|congruence].
    destruct (list_index rhs_to _); simpl in Hmin; congruence.
Qed.
End more_registration.

(** ** Further properties of the class attributes *)

Section more_classes.
Variable ext : external.

Lemma lookup_along_ext (ns1 ns2 : namespaces) (name : string)
    (l : list pyclass) :
  (∀ k, k ∈ l → ns1 k !! name = ns2 k !! name) →
  lookup_along ns1 name l = lookup_along ns2 name l.
Proof.
  induction l as [|k l IH]; simpl; intros Hl; [done|].
  rewrite (Hl k) by left. rewrite IH; [done|].
  intros k' ?. apply Hl. by right.
Qed.

Lemma class_setattr_other c a x (ns0 : namespaces) k name :
  name ≠ a ∨ k ≠ c →
  class_setattr c a x ns0 k !! name = ns0 k !! name.
Proof.
  intros H. unfold class_setattr. case_decide; [|done].
  rewrite lookup_insert_ne; [done|]. intros <-. tauto.
Qed.

(** X16. When the module is loaded, each of the three array classes has
    [vector.LorentzVectorArray] as its [ProjectionClass4D]. *)
Theorem array_class_projection4D c :
  c ∈ [CandidateArray; PtEtaPhiMCandidateArray; PtEtaPhiECandidateArray] →
  class_getattr ext (loaded_classes ext) c "ProjectionClass4D" =
    Ok (Class (Vector "LorentzVectorArray")).
Proof.
  intros Hc.
  repeat (apply elem_of_cons in Hc as [Heq|Hc];
          [subst c; vm_compute; reflexivity|]).
  by apply elem_of_nil in Hc.
Qed.

(** X17. Every class of the module, the three mixins and their array and
    record classes, finds [add] and [sum] in the body of [Candidate]: the
    coordinate variants bring none of their own, and [Candidate] comes
    before the classes of the vector module, whose [add] never applies. *)
Theorem module_classes_use_Candidate_methods c :
  c ∈ module_classes →
  class_getattr ext (loaded_classes ext) c "add" =
    Ok (Function Candidate "add") ∧
  class_getattr ext (loaded_classes ext) c "sum" =
    Ok (Function Candidate "sum").
Proof.
  intros Hc. unfold module_classes in Hc.
  repeat (apply elem_of_cons in Hc as [Heq|Hc];
          [subst c; split; vm_compute; reflexivity|]).
  by apply elem_of_nil in Hc.
Qed.

(** X18. The assignments that end the module change the lookup of no other
    name: on every class, an attribute other than the three projection
    classes and the momentum class is after the load what the class
    statements made it, so the functions the registration stored are still
    the ones the classes have. *)
Theorem assignments_keep_other_attributes c name :
  name ∉ assigned_names →
  class_getattr ext (loaded_classes ext) c name =
  class_getattr ext (class_statements ext) c name.
Proof.
  intros Hname. unfold class_getattr.
  rewrite (lookup_along_ext (loaded_classes ext) (class_statements ext));
    [done|].
  intros k _. unfold loaded_classes, assign_classes.
  unfold assigned_names in Hname.
  rewrite !class_setattr_other; [done|left; intros ->; apply Hname..];
    solve_elem.
Qed.

Lemma loaded_MomentumClass_elsewhere k :
  k ∉ [CandidateArray; PtEtaPhiMCandidateArray; PtEtaPhiECandidateArray;
       PtEtaPhiECandidate] →
  loaded_classes ext k !! "MomentumClass" =
  class_statements ext k !! "MomentumClass".
Proof.
  intros Hk. unfold loaded_classes, assign_classes.
  rewrite !class_setattr_other; [done|right; intros ->; apply Hk..];
    solve_elem.
Qed.

(** X19. The last assignment is made on the mixin [PtEtaPhiECandidate], so
    the mixin of the energy variant and its record class have the array
    class as their [MomentumClass] too; for the mixins and the record
    classes of the two other variants the module sets none, and their
    [MomentumClass] is what the classes of the vector module and of the
    framework give them. *)
Theorem MomentumClass_of_mixins_and_records :
  external_only ext →
  class_getattr ext (loaded_classes ext) PtEtaPhiECandidate "MomentumClass" =
    Ok (Class PtEtaPhiECandidateArray) ∧
  class_getattr ext (loaded_classes ext) PtEtaPhiECandidateRecord
    "MomentumClass" = Ok (Class PtEtaPhiECandidateArray) ∧
  ∀ c, c ∈ [Candidate; CandidateRecord; PtEtaPhiMCandidate;
            PtEtaPhiMCandidateRecord] →
    class_getattr ext (loaded_classes ext) c "MomentumClass" =
    class_getattr ext (class_statements ext) c "MomentumClass".
Proof.
  intros Hext. split; [by vm_compute|]. split; [by vm_compute|].
  intros c Hc. unfold class_getattr.
  rewrite (lookup_along_ext (loaded_classes ext) (class_statements ext));
    [done|].
  intros k Hk. apply loaded_MomentumClass_elsewhere.
  assert (is_external k ∨ k ∈ [Candidate; CandidateRecord; PtEtaPhiMCandidate;
                               PtEtaPhiMCandidateRecord]) as [Hx|Hin].
  { repeat (apply elem_of_cons in Hc as [Heq|Hc];
            [subst c; cbv [mro linearization id] in Hk;
             repeat (first [apply elem_of_cons in Hk as [->|Hk]
                           |apply elem_of_app in Hk as [Hk|Hk]]);
             first [by right; solve_elem
                   | left; eapply Hext;
                     first [left; split; [|eassumption]; exact I
                           | right; eassumption]]|]).
    by apply elem_of_nil in Hc. }
  - intros Hin. destruct k; try done;
      repeat (apply elem_of_cons in Hin as [Heq|Hin]; [discriminate|]);
      by apply elem_of_nil in Hin.
  - intros Hin'.
    repeat (apply elem_of_cons in Hin as [->|Hin];
            [repeat (apply elem_of_cons in Hin' as [Heq|Hin'];
                     [discriminate|]); by apply elem_of_nil in Hin'|]).
    by apply elem_of_nil in Hin.
Qed.
End more_classes.

(** ** The further properties on the examples *)

Lemma example_tables_NoDup :
  NoDup (vector._binary_dispatch_cls example_tables).*1.
Proof. apply (bool_decide_unpack _). vm_compute. exact I. Qed.

Lemma example_unranked_raises :
  register example_ext example_unranked =
  Raised (ValueError "is not in list")
         (state_of (register example_ext example_unranked)).
Proof.
  assert (raised_exn (register example_ext example_unranked) =
          Some (ValueError "is not in list")) as H
    by (vm_compute; reflexivity).
  destruct (register example_ext example_unranked); simpl in *; congruence.
Qed.

Lemma example_ext_external_only : external_only example_ext.
Proof.
  intros c k [[Hc H]|H]; simpl in H; [|by apply elem_of_nil in H].
  repeat case_decide;
    repeat (apply elem_of_cons in H as [->|H]; [by subst|]);
    by apply elem_of_nil in H.
Qed.

Lemma example_tables_complete k c :
  (k, c) ∈ vector._binary_dispatch_cls example_tables →
  c ∈ vector._rank example_tables ∧
  ∃ f g,
    class_getattr example_ext (class_statements example_ext) c "add" = Ok f ∧
    class_getattr example_ext (class_statements example_ext) c "subtract"
      = Ok g.
Proof.
  intros H. simpl in H.
  repeat (apply elem_of_cons in H as [[= -> ->]|H];
          [split; [simpl; solve_elem|];
           eexists _, _; split; vm_compute; reflexivity|]).
  by apply elem_of_nil in H.
Qed.

Lemma registration_binds_Candidate_witness :
  assoc "Candidate" (vector._binary_dispatch_cls example_loaded) =
  Some Candidate.
Proof.
  exact (proj1 (registration_binds_Candidate example_ext example_tables)).
Defined.

Lemma registration_keeps_precedence_witness :
  rank_index (vector._rank example_loaded) (Vector "ThreeVector") = Ok 1%nat.
Proof.
  apply (proj1 (registration_keeps_precedence example_ext example_tables)).
  reflexivity.
Defined.

Lemma registration_writes_registered_pairs_only_witness :
  vector.behavior example_loaded !! (numpy_add, "Candidate", "Muon") =
  vector.behavior example_tables !! (numpy_add, "Candidate", "Muon").
Proof.
  apply (registration_writes_registered_pairs_only example_ext example_tables).
  intros (_ & H & _). revert H.
  apply (bool_decide_unpack _). vm_compute. exact I.
Defined.

Lemma candidate_pair_entries_witness :
  vector.behavior example_loaded !! (numpy_add, "Candidate", "Candidate") =
    Some (Function Candidate "add") ∧
  ∃ g, vector.behavior example_loaded
         !! (numpy_subtract, "Candidate", "Candidate") = Some g ∧
       class_getattr example_ext (class_statements example_ext)
         (Vector "LorentzVector") "subtract" = Ok g.
Proof.
  apply (candidate_pair_entries example_ext example_tables example_loaded).
  - exact example_tables_NoDup.
  - exact example_registers.
Defined.

Lemma other_class_wins_witness :
  ∃ f g,
    class_getattr example_ext (class_statements example_ext)
      (Vector "LorentzVector") "add" = Ok f ∧
    class_getattr example_ext (class_statements example_ext)
      (Vector "LorentzVector") "subtract" = Ok g ∧
    vector.behavior example_loaded !! (numpy_add, "Candidate", "LorentzVector")
      = Some f ∧
    vector.behavior example_loaded
      !! (numpy_subtract, "Candidate", "LorentzVector") = Some g ∧
    vector.behavior example_loaded !! (numpy_add, "LorentzVector", "Candidate")
      = Some f ∧
    vector.behavior example_loaded
      !! (numpy_subtract, "LorentzVector", "Candidate") = Some g.
Proof.
  apply (other_class_wins example_ext example_tables example_loaded
           "LorentzVector" (Vector "LorentzVector")).
  - exact example_tables_NoDup.
  - exact example_registers.
  - apply (bool_decide_unpack _). vm_compute. exact I.
  - simpl. solve_elem.
  - discriminate.
  - discriminate.
Defined.

Lemma unranked_class_fails_witness :
  ∃ e v', register example_ext example_unranked = Raised e v' ∧
    assoc "Candidate" (vector._binary_dispatch_cls v') = Some Candidate ∧
    Candidate ∈ vector._rank v'.
Proof.
  apply (unranked_class_fails example_ext example_unranked
           "Muon" (Vector "Muon")).
  - simpl. solve_elem.
  - discriminate.
  - discriminate.
  - apply (bool_decide_unpack _). vm_compute. exact I.
Defined.

Lemma registration_exceptions_witness :
  ValueError "is not in list" = ValueError "is not in list" ∨
  ValueError "is not in list" = AttributeError "add" ∨
  ValueError "is not in list" = AttributeError "subtract".
Proof.
  apply (registration_exceptions example_ext example_unranked
           (ValueError "is not in list")
           (state_of (register example_ext example_unranked))).
  exact example_unranked_raises.
Defined.

Lemma register_completes_witness :
  ∃ v', register example_ext example_tables = Done v'.
Proof.
  apply (register_completes example_ext example_tables).
  - exact example_tables_complete.
  - eexists. vm_compute. reflexivity.
Defined.

Lemma array_class_projection4D_witness :
  class_getattr example_ext (loaded_classes example_ext)
    PtEtaPhiMCandidateArray "ProjectionClass4D" =
  Ok (Class (Vector "LorentzVectorArray")).
Proof.
  apply (array_class_projection4D example_ext PtEtaPhiMCandidateArray).
  solve_elem.
Defined.

Lemma module_classes_use_Candidate_methods_witness :
  class_getattr example_ext (loaded_classes example_ext)
    PtEtaPhiECandidateRecord "add" = Ok (Function Candidate "add") ∧
  class_getattr example_ext (loaded_classes example_ext)
    PtEtaPhiECandidateRecord "sum" = Ok (Function Candidate "sum").
Proof.
  apply (module_classes_use_Candidate_methods example_ext
           PtEtaPhiECandidateRecord).
  unfold module_classes. solve_elem.
Defined.

Lemma assignments_keep_other_attributes_witness :
  class_getattr example_ext (loaded_classes example_ext) CandidateArray
    "subtract" =
  class_getattr example_ext (class_statements example_ext) CandidateArray
    "subtract".
Proof.
  apply (assignments_keep_other_attributes example_ext CandidateArray
           "subtract").
  apply (bool_decide_unpack _). vm_compute. exact I.
Defined.

Lemma MomentumClass_of_mixins_and_records_witness :
  class_getattr example_ext (loaded_classes example_ext) PtEtaPhiECandidate
    "MomentumClass" = Ok (Class PtEtaPhiECandidateArray).
Proof.
  apply (proj1 (MomentumClass_of_mixins_and_records example_ext
                  example_ext_external_only)).
Defined.

(** ** Importing the module again *)

Section reimporting.
Variable ext : external.
Implicit Types (v : vector.tables) (bh : behaviors) (c : pyclass).
Implicit Types (l r : string * pyclass) (rank : list pyclass).
Implicit Types (d : list (string * pyclass)).

Local Abbreviation ns := (class_statements ext).
Local Abbreviation loops rank d bh :=
  (for_each (λ l, for_each (λ r, register_pair ext ns rank l r) d) d bh).

Lemma register_as_done candidate v v' :
  register_as candidate ext v = Done v' →
  vector._binary_dispatch_cls v' =
    dict_update "Candidate" candidate (vector._binary_dispatch_cls v) ∧
  vector._rank v' = vector._rank v ++ [candidate] ∧
  loops (vector._rank v') (vector._binary_dispatch_cls v')
        (vector.behavior v) = Done (vector.behavior v').
Proof.
  unfold register_as; cbn zeta.
  destruct (for_each _ _ _) as [bh|e bh] eqn:Hrun; [|done].
  by intros [= <-].
Qed.

Lemma register_as_rank candidate v :
  vector._rank (state_of (register_as candidate ext v)) =
  vector._rank v ++ [candidate].
Proof. unfold register_as. by destruct (for_each _ _ _). Qed.

Lemma dict_update_elem_key {V} (k : string) (x : V) (d : list (string * V))
    (e : string * V) :
  NoDup d.*1 → e ∈ dict_update k x d → e = (k, x) ∨ e ∈ d ∧ e.1 ≠ k.
Proof.
  induction d as [|[k1 x1] d IH]; csimpl.
  - intros _ ?%list_elem_of_singleton. by left.
  - intros [Hk1 Hnd]%NoDup_cons.
    destruct (decide (k1 = k)) as [->|Hne].
    + intros [->|He]%elem_of_cons; [by left|]. right.
      split; [by right|]. intros Heq. apply Hk1. rewrite <- Heq.
      by apply list_elem_of_fmap_2.
    + intros [->|He]%elem_of_cons; [right; split; [left | done]|].
      destruct (IH Hnd He) as [?|[? ?]]; [by left|].
      right. split; [by right | done].
Qed.

Lemma rank_index_app_other rank c' c :
  c ≠ c' → rank_index (rank ++ [c']) c = rank_index rank c.
Proof.
  intros Hne. unfold rank_index.
  destruct (list_index c rank) as [k|] eqn:Hk.
  - by rewrite (list_index_app _ _ _ _ Hk).
  - apply list_index_None in Hk.
    assert (list_index c (rank ++ [c']) = None) as ->; [|done].
    apply list_index_None. rewrite elem_of_app, list_elem_of_singleton.
    tauto.
Qed.

Lemma rank_index_elem rank c i : rank_index rank c = Ok i → c ∈ rank.
Proof.
  unfold rank_index. destruct (list_index c rank) as [k|] eqn:Hk; [|done].
  intros _. by apply list_index_lookup, list_elem_of_lookup_2 in Hk.
Qed.

(** A class appended last yields to every class ranked before it. *)
Lemma min_by_rank_last rank candidate c :
  c ∈ rank → candidate ∉ rank →
  min_by_rank (rank ++ [candidate]) candidate c = Ok c ∧
  min_by_rank (rank ++ [candidate]) c candidate = Ok c.
Proof.
  intros Hc Hcand.
  destruct (list_index c rank) as [i|] eqn:Hi;
    [|by apply list_index_None in Hi].
  pose proof (list_index_lookup _ _ _ Hi) as Hlt%lookup_lt_Some.
  unfold min_by_rank, rank_index.
  rewrite (list_index_app _ _ [candidate] _ Hi), list_index_last by done.
  simpl. split.
  - by destruct (Nat.ltb_spec i (length rank)); [|lia].
  - by destruct (Nat.ltb_spec (length rank) i); [lia|].
Qed.

(** What the loops leave when they run to their end on a dict that binds
    "Candidate" to a class appended last to the precedence list: the
    entries of the pair of "Candidate" with itself are the methods of that
    class, and those of its pairs with another tag the methods of the class
    of that tag. *)
Lemma loops_entries candidate rank d bh bh' :
  NoDup d.*1 → ("Candidate", candidate) ∈ d → candidate ∉ rank →
  (∀ x, x ∈ d → x.1 ≠ "Candidate" → x.2 ≠ candidate) →
  loops (rank ++ [candidate]) d bh = Done bh' →
  (∃ f g,
     class_getattr ext ns candidate "add" = Ok f ∧
     class_getattr ext ns candidate "subtract" = Ok g ∧
     bh' !! (numpy_add, "Candidate", "Candidate") = Some f ∧
     bh' !! (numpy_subtract, "Candidate", "Candidate") = Some g) ∧
  (∀ t c, (t, c) ∈ d → t ≠ "Candidate" →
     c ∈ rank ∧
     ∃ f g,
       class_getattr ext ns c "add" = Ok f ∧
       class_getattr ext ns c "subtract" = Ok g ∧
       bh' !! (numpy_add, "Candidate", t) = Some f ∧
       bh' !! (numpy_subtract, "Candidate", t) = Some g ∧
       bh' !! (numpy_add, t, "Candidate") = Some f ∧
       bh' !! (numpy_subtract, t, "Candidate") = Some g).
Proof.
  intros Hnd Hin Hcand Hfresh Hrun.
  pose proof (loops_register ext _ _ _ _ Hnd Hrun) as Hreg. split.
  - destruct (Hreg _ _ Hin Hin) as (o & f & g & Hmin & Hf & Hg & Ha & Hs);
      [by left|]. simpl in *.
    destruct (min_by_rank_ok _ _ _ _ Hmin) as (_ & _ & _ & _ & Hout & _).
    assert (o = candidate) as -> by tauto. by exists f, g.
  - intros t c Htc Ht.
    destruct (Hreg _ _ Hin Htc) as (o1 & f & g & Hmin1 & Hf & Hg & Ha1 & Hs1);
      [by left|].
    destruct (Hreg _ _ Htc Hin)
      as (o2 & f' & g' & Hmin2 & Hf' & Hg' & Ha2 & Hs2); [by right|].
    simpl in *.
    assert (c ∈ rank) as Hc.
    { destruct (min_by_rank_ok _ _ _ _ Hmin1) as (_ & ib & _ & Hib & _).
      apply rank_index_elem in Hib.
      apply elem_of_app in Hib as [?|Hib%list_elem_of_singleton]; [done|].
      by destruct (Hfresh (t, c) Htc Ht). }
    destruct (min_by_rank_last rank candidate c Hc Hcand) as [H1 H2].
    assert (o1 = c) as -> by congruence.
    assert (o2 = c) as -> by congruence.
    split; [done|]. exists f, g. repeat split; try done; congruence.
Qed.

Lemma loops_frame rank d bh op a b :
  ¬ (a ∈ d.*1 ∧ b ∈ d.*1 ∧ (a = "Candidate" ∨ b = "Candidate")) →
  state_of (loops rank d bh) !! (op, a, b) = bh !! (op, a, b).
Proof.
  intros Hkey.
  apply (for_each_preserve (λ bh1, bh1 !! (op, a, b) = bh !! (op, a, b)));
    [|done].
  intros l bh1 Hl Hbh1.
  apply (for_each_preserve (λ bh2, bh2 !! (op, a, b) = bh !! (op, a, b)));
    [|done].
  intros r bh2 Hr Hbh2. rewrite <- Hbh2.
  destruct (decide ((a, b) = (l.1, r.1))) as [[= -> ->]|Hne];
    [|by apply register_pair_frame].
  rewrite register_pair_skip; [done|..]; intros Hc; apply Hkey;
    (split; [by apply list_elem_of_fmap_2|]);
    (split; [by apply list_elem_of_fmap_2|]); auto.
Qed.

Lemma loops_complete rank d bh :
  (∀ x, x ∈ d →
     x.2 ∈ rank ∧
     ∃ f g, class_getattr ext ns x.2 "add" = Ok f ∧
            class_getattr ext ns x.2 "subtract" = Ok g) →
  is_done (loops rank d bh) = true.
Proof.
  intros Hall.
  apply for_each_completes. intros l bh1 Hl.
  apply for_each_completes. intros r bh2 Hr.
  apply register_pair_completes; [by apply Hall..|].
  intros c [->| ->]; by apply Hall.
Qed.

(** C6, as amended. Importing the module again after a load that completed
    completes too, but does not leave the registries as they were, because
    the registration then names the class the class statement has just
    made: the tag "Candidate" of the dispatch dict is bound to the new
    class, the new class is appended to the precedence list, and the
    addition of two "Candidate" is bound to the [add] of the new class.
    Everything else is written again with the value it had: the other tags
    of the dict and the order of the tags, the index of every class ranked
    before, and every other entry of the behavior registry, the subtraction
    of two "Candidate" and the pairs of "Candidate" with another tag
    included. *)
Theorem reimport_rebinds_Candidate v v1 :
  NoDup (vector._binary_dispatch_cls v).*1 →
  Candidate ∉ vector._rank v → Again Candidate ∉ vector._rank v →
  (∀ t c, (t, c) ∈ vector._binary_dispatch_cls v → t ≠ "Candidate" →
     c ≠ Candidate ∧ c ≠ Again Candidate) →
  register ext v = Done v1 →
  ∃ v2, reimport ext v1 = Done v2 ∧ v2 ≠ v1 ∧
    assoc "Candidate" (vector._binary_dispatch_cls v2) =
      Some (Again Candidate) ∧
    (∀ k, k ≠ "Candidate" →
       assoc k (vector._binary_dispatch_cls v2) =
       assoc k (vector._binary_dispatch_cls v1)) ∧
    (vector._binary_dispatch_cls v2).*1 =
      (vector._binary_dispatch_cls v1).*1 ∧
    vector._rank v2 = vector._rank v1 ++ [Again Candidate] ∧
    (∀ c, c ≠ Again Candidate →
       rank_index (vector._rank v2) c = rank_index (vector._rank v1) c) ∧
    vector.behavior v2 =
      <[(numpy_add, "Candidate", "Candidate") :=
          Function (Again Candidate) "add"]> (vector.behavior v1).
Proof.
  intros Hnd Hc1 Hc2 Hfresh (Hd1 & Hr1 & Hrun1)%register_as_done.
  destruct v1 as [d1 r1 b1]. simpl in *.
  set (d2 := dict_update "Candidate" (Again Candidate) d1).
  assert (NoDup d1.*1) as Hnd1 by (rewrite Hd1; by apply dict_update_NoDup).
  assert (NoDup d2.*1) as Hnd2 by by apply dict_update_NoDup.
  assert (("Candidate", Candidate) ∈ d1) as Hin1
    by (rewrite Hd1; apply dict_update_here).
  assert (("Candidate", Again Candidate) ∈ d2) as Hin2
    by apply dict_update_here.
  assert (∀ x, x ∈ d1 → x.1 ≠ "Candidate" →
               x.2 ≠ Candidate ∧ x.2 ≠ Again Candidate) as Hfresh1.
  { intros [t c] Hx Ht. simpl in *. rewrite Hd1 in Hx.
    apply dict_update_elem in Hx as [Heq|Hx]; [by injection Heq as -> ->|].
    by apply (Hfresh t c). }
  assert (∀ x, x ∈ d2 → x.1 ≠ "Candidate" → x ∈ d1) as Hold.
  { intros x [->|Hx]%dict_update_elem ?; done. }
  assert (Again Candidate ∉ r1) as Hc2'.
  { rewrite Hr1, elem_of_app, list_elem_of_singleton. intros [?|[=]]. done. }
  rewrite Hr1 in Hrun1.
  destruct (loops_entries Candidate (vector._rank v) d1 (vector.behavior v)
              b1 Hnd1 Hin1 Hc1)
    as [(f1 & g1 & Hf1 & Hg1 & Ha1 & Hs1) Hmixed1]; [|done|].
  { intros x Hx Ht. by apply Hfresh1. }
  assert (class_getattr ext ns (Again Candidate) "add" =
          Ok (Function (Again Candidate) "add")) as Hadd2 by reflexivity.
  assert (class_getattr ext ns (Again Candidate) "subtract" = Ok g1) as Hsub2
    by (rewrite <- Hg1; reflexivity).
  assert (is_done (loops (r1 ++ [Again Candidate]) d2 b1) = true) as Hdone.
  { apply loops_complete. intros x Hx.
    apply dict_update_elem_key in Hx as [->|[Hx Hk]]; [| |done]; simpl.
    - split; [|eauto]. rewrite elem_of_app, list_elem_of_singleton. by right.
    - destruct x as [t c]. simpl in *.
      destruct (Hmixed1 t c Hx Hk) as (Hc & f & g & ? & ? & _).
      split; [|eauto]. rewrite Hr1, !elem_of_app. auto. }
  destruct (loops _ d2 _) as [bh2|e bh2] eqn:Hrun2; [|done]. clear Hdone.
  destruct (loops_entries (Again Candidate) r1 d2 b1 bh2 Hnd2 Hin2 Hc2')
    as [(f2 & g2 & Hf2 & Hg2 & Ha2 & Hs2) Hmixed2]; [|done|].
  { intros x Hx Ht. by apply Hfresh1; [apply Hold|]. }
  exists (vector.mkTables d2 (r1 ++ [Again Candidate]) bh2).
  split.
  { unfold reimport, register_as; cbn zeta. simpl. fold d2.
    by rewrite Hrun2. }
  split.
  { intros [= _ Heq _]. apply (f_equal length) in Heq.
    rewrite length_app in Heq. simpl in Heq. lia. }
  simpl. split; [by unfold d2; rewrite assoc_dict_update, decide_True|].
  split.
  { intros k Hk. unfold d2. by rewrite assoc_dict_update, decide_False. }
  split.
  { apply dict_update_old.
    change "Candidate" with (("Candidate", Candidate).1).
    by apply list_elem_of_fmap_2. }
  split; [done|]. split; [intros c Hc; by apply rank_index_app_other|].
  apply map_eq. intros [[op a] b].
  destruct (decide (a ∈ d2.*1 ∧ b ∈ d2.*1 ∧
                    (a = "Candidate" ∨ b = "Candidate")))
    as [(Ha & Hb & Hg)|Hn].
  - assert (∀ t, t ∈ d2.*1 → t ≠ "Candidate" →
              ∃ c, (t, c) ∈ d2 ∧ (t, c) ∈ d1) as Hentry.
    { intros t Ht Hne. apply list_elem_of_fmap in Ht as ([t' c] & -> & Htc).
      exists c. split; [done|]. by apply Hold. }
    destruct (decide (a = "Candidate")) as [->|Hna];
      destruct (decide (b = "Candidate")) as [->|Hnb].
    + destruct op.
      * rewrite lookup_insert_eq, Ha2. congruence.
      * rewrite lookup_insert_ne by done. rewrite Hs2, Hs1. congruence.
    + rewrite lookup_insert_ne by congruence.
      destruct (Hentry b Hb Hnb) as (c & Hc2d & Hc1d).
      destruct (Hmixed1 b c Hc1d Hnb) as (_ & f & g & ? & ? & ? & ? & _).
      destruct (Hmixed2 b c Hc2d Hnb) as (_ & f' & g' & ? & ? & ? & ? & _).
      destruct op; congruence.
    + rewrite lookup_insert_ne by congruence.
      destruct (Hentry a Ha Hna) as (c & Hc2d & Hc1d).
      destruct (Hmixed1 a c Hc1d Hna)
        as (_ & f & g & ? & ? & _ & _ & ? & ?).
      destruct (Hmixed2 a c Hc2d Hna)
        as (_ & f' & g' & ? & ? & _ & _ & ? & ?).
      destruct op; congruence.
    + tauto.
  - rewrite lookup_insert_ne.
    + change bh2 with (state_of (Done (S := behaviors) bh2)).
      rewrite <- Hrun2. by apply loops_frame.
    + intros [= <- <- <-]. apply Hn.
      assert ("Candidate" ∈ d2.*1) as Hkey.
      { change "Candidate" with (("Candidate", Again Candidate).1).
        by apply list_elem_of_fmap_2. }
      auto.
Qed.
End reimporting.

Lemma example_tables_fresh t c :
  (t, c) ∈ vector._binary_dispatch_cls example_tables → t ≠ "Candidate" →
  c ≠ Candidate ∧ c ≠ Again Candidate.
Proof.
  intros H _. simpl in H.
  repeat (apply elem_of_cons in H as [[= -> ->]|H]; [done|]).
  by apply elem_of_nil in H.
Qed.

Lemma reimport_rebinds_Candidate_witness :
  ∃ v2, reimport example_ext example_loaded = Done v2 ∧ v2 ≠ example_loaded ∧
    assoc "Candidate" (vector._binary_dispatch_cls v2) =
      Some (Again Candidate) ∧
    (∀ k, k ≠ "Candidate" →
       assoc k (vector._binary_dispatch_cls v2) =
       assoc k (vector._binary_dispatch_cls example_loaded)) ∧
    (vector._binary_dispatch_cls v2).*1 =
      (vector._binary_dispatch_cls example_loaded).*1 ∧
    vector._rank v2 = vector._rank example_loaded ++ [Again Candidate] ∧
    (∀ c, c ≠ Again Candidate →
       rank_index (vector._rank v2) c =
       rank_index (vector._rank example_loaded) c) ∧
    vector.behavior v2 =
      <[(numpy_add, "Candidate", "Candidate") :=
          Function (Again Candidate) "add"]> (vector.behavior example_loaded).
Proof.
  apply (reimport_rebinds_Candidate example_ext example_tables example_loaded).
  - exact example_tables_NoDup.
  - apply (bool_decide_unpack _). vm_compute. exact I.
  - apply (bool_decide_unpack _). vm_compute. exact I.
  - exact example_tables_fresh.
  - exact example_registers.
Defined.

(** C6, as stated, fails: importing the module again does not leave the
    registries in the state the first load left them in; the precedence
    list, for one, is an entry longer. *)
Lemma reimport_changes_registries :
  ¬ (∀ ext v,
       state_of (reimport ext (state_of (register ext v))) =
       state_of (register ext v)).
Proof.
  intros H. specialize (H example_ext example_tables).
  apply (f_equal (λ t, length (vector._rank t))) in H.
  unfold reimport, register in H.
  rewrite !register_as_rank, !length_app in H. simpl in H. lia.
Qed.
